(** * nanobot: the TODO.md task tools and the heartbeat service

    A shallow embedding of
      - [nanobot/agent/tools/todo.py]   (TodoAddTaskTool, TodoListTasksTool,
                                         TodoCompleteTaskTool),
      - [nanobot/skills/todo.py]        (the wrappers around the tools),
      - [nanobot/heartbeat/service.py]  (_is_heartbeat_empty, HeartbeatService),
    together with the part of Python's [str] API these files call.

    Layout: [PyStr] (text), [Py] (exceptions, files, the state and the
    effect monad), [IO] (file-system calls), [Todo], [Skills],
    [Heartbeat]; then the vocabulary of the statements, the lemmas, and
    the theorems.

    Files are held as decoded text.  Reading in text mode translates
    "\r\n" and "\r" into "\n"; writing translates nothing, as on a POSIX
    platform.  The interpreter is CPython 3.11 or later with its
    defaults, the event loop that of asyncio. *)

From Stdlib Require Import String Ascii DecimalString.
From stdpp Require Import base numbers list option.

(** ** Python text *)

(** A Python [str] is a sequence of Unicode code points.  Code points are
    kept as binary naturals, so that the separators and blanks outside
    ASCII (U+0085, U+2028, ...) that [splitlines] and [strip] know about
    are representable. *)
Module PyStr.

Abbreviation char := N (only parsing).
Abbreviation str := (list N) (only parsing).

(** A source literal, written as a Rocq string of ASCII characters. *)
Definition lit (s : string) : str :=
  map N_of_ascii (list_ascii_of_string s).

Definition LF : char := 10%N.
Definition CR : char := 13%N.

(** [s.startswith(p)] *)
Fixpoint startswith (s p : str) : bool :=
  match p, s with
  | [], _ => true
  | _ :: _, [] => false
  | a :: p', b :: s' => (a =? b)%N && startswith s' p'
  end.

(** [needle in hay] *)
Fixpoint contains (needle hay : str) : bool :=
  startswith hay needle ||
  match hay with
  | [] => false
  | _ :: hay' => contains needle hay'
  end.

(** [s.replace(old, new)]: every occurrence, leftmost first, occurrences
    not overlapping.  [skip] counts the characters of a matched
    occurrence that are still to be passed over. *)
Fixpoint replace_from (old new : str) (skip : nat) (s : str) : str :=
  match s with
  | [] => []
  | c :: s' =>
      match skip with
      | S k => replace_from old new k s'
      | O =>
          if startswith s old
          then new ++ replace_from old new (length old - 1) s'
          else c :: replace_from old new 0 s'
      end
  end.

Definition replace (s old new : str) : str :=
  match old with
  | [] => new ++ flat_map (fun c => c :: new) s
  | _ :: _ => replace_from old new 0 s
  end.

(** [sep.join(parts)] *)
Fixpoint join (sep : str) (parts : list str) : str :=
  match parts with
  | [] => []
  | [p] => p
  | p :: rest => p ++ sep ++ join sep rest
  end.

(** [s.split(sep)] for a separator of one character, the only form
    the sources use ([content.split("\n")]). *)
Fixpoint split (s : str) (sep : char) : list str :=
  match s with
  | [] => [[]]
  | c :: s' =>
      if (c =? sep)%N then [] :: split s' sep
      else match split s' sep with
           | l :: ls => (c :: l) :: ls
           | [] => [[c]]
           end
  end.

(** Line boundaries of [str.splitlines]:
    \n \v \f \r, FS GS RS, NEL, LINE SEPARATOR, PARAGRAPH SEPARATOR. *)
Definition is_linebreak (c : char) : bool :=
  ((10 <=? c) && (c <=? 13) || (28 <=? c) && (c <=? 30)
   || (c =? 133) || (c =? 8232) || (c =? 8233))%N.

(** [s.splitlines()]: the lines without their terminators; "\r\n" is one
    terminator; a terminator at the very end opens no further line. *)
Fixpoint splitlines (s : str) : list str :=
  match s with
  | [] => []
  | c :: s' =>
      if is_linebreak c then
        [] :: (if (c =? CR)%N
               then match s' with
                    | d :: s'' => if (d =? LF)%N then splitlines s''
                                  else splitlines s'
                    | [] => []
                    end
               else splitlines s')
      else match splitlines s' with
           | l :: ls => (c :: l) :: ls
           | [] => [[c]]
           end
  end.

(** Blanks of [str.isspace], which is what [strip()] removes. *)
Definition is_space (c : char) : bool :=
  ((9 <=? c) && (c <=? 13) || (28 <=? c) && (c <=? 32)
   || (c =? 133) || (c =? 160) || (c =? 5760)
   || (8192 <=? c) && (c <=? 8202)
   || (c =? 8232) || (c =? 8233) || (c =? 8239) || (c =? 8287)
   || (c =? 12288))%N.

Fixpoint lstrip (s : str) : str :=
  match s with
  | [] => []
  | c :: s' => if is_space c then lstrip s' else s
  end.

Definition rstrip (s : str) : str := rev (lstrip (rev s)).

(** [s.strip()] *)
Definition strip (s : str) : str := lstrip (rstrip s).

(** Text-mode reading with [newline=None]: "\r\n" and a lone "\r" both
    arrive as "\n". *)
Fixpoint universal_newlines (s : str) : str :=
  match s with
  | [] => []
  | c :: s' =>
      if (c =? CR)%N
      then LF :: match s' with
                 | d :: s'' => if (d =? LF)%N then universal_newlines s''
                               else universal_newlines s'
                 | [] => []
                 end
      else c :: universal_newlines s'
  end.

(** [s[:n]] *)
Definition slice_to (n : nat) (s : str) : str := take n s.

(** The surrogates, U+D800 to U+DFFF.  A [str] may hold them; UTF-8 has
    no encoding for them. *)
Definition is_surrogate (c : char) : bool :=
  ((55296 <=? c) && (c <=? 57343))%N.

(** "%zd" of an index *)
Definition str_of_nat (n : nat) : str :=
  lit (NilZero.string_of_uint (Nat.to_uint n)).

(** "%04x" of a code point of the basic plane *)
Definition hex_digit (d : N) : char :=
  (if d <? 10 then 48 + d else 87 + d)%N.

Definition hex4 (c : char) : str :=
  [hex_digit (c / 4096 mod 16); hex_digit (c / 256 mod 16);
   hex_digit (c / 16 mod 16); hex_digit (c mod 16)]%N.

(** Where the UTF-8 encoder stops: the index of the first surrogate,
    the surrogate, and the number of surrogates in a row from there. *)
Fixpoint surrogate_run (s : str) : nat :=
  match s with
  | c :: s' => if is_surrogate c then S (surrogate_run s') else 0
  | [] => 0
  end.

Fixpoint first_surrogate (s : str) (i : nat) : option (nat * char * nat) :=
  match s with
  | [] => None
  | c :: s' =>
      if is_surrogate c then Some (i, c, S (surrogate_run s'))
      else first_surrogate s' (S i)
  end.

#[global] Arguments lit : simpl never.
#[global] Arguments replace : simpl never.

End PyStr.

Import PyStr.

(** ** Exceptions, files and effects *)

Module Py.

(** The exception classes that occur.  [CancelledError], [KeyboardInterrupt]
    and [SystemExit] derive from [BaseException] only; the others derive
    from [Exception]. *)
Inductive exc_class :=
| OSError | UnicodeError | UnicodeEncodeError | ValueError | OverflowError
| TypeError | AttributeError | RuntimeError
| CancelledError | KeyboardInterrupt | SystemExit.

(** An exception instance: its class and [str(e)]. *)
Record exn := Exn { exn_class : exc_class; exn_str : str }.

(** [isinstance(e, Exception)] *)
Definition is_Exception (e : exn) : bool :=
  match exn_class e with
  | CancelledError | KeyboardInterrupt | SystemExit => false
  | _ => true
  end.

(** [isinstance(e, TypeError)] *)
Definition is_TypeError (e : exn) : bool :=
  match exn_class e with TypeError => true | _ => false end.

(** [isinstance(e, asyncio.CancelledError)] *)
Definition is_CancelledError (e : exn) : bool :=
  match exn_class e with CancelledError => true | _ => false end.

Inductive outcome (A : Type) :=
| Returns (a : A)
| Raises (e : exn).
Arguments Returns {A} a.
Arguments Raises {A} e.

(** The two files of the workspace. *)
Inductive path := TODO_md | HEARTBEAT_md.

Record files := Files { todo_md : option str; heartbeat_md : option str }.

Definition file_at (p : path) (d : files) : option str :=
  match p with TODO_md => todo_md d | HEARTBEAT_md => heartbeat_md d end.

Definition set_file (p : path) (c : option str) (d : files) : files :=
  match p with
  | TODO_md => Files c (heartbeat_md d)
  | HEARTBEAT_md => Files (todo_md d) c
  end.

(** What a file-system call can raise. *)
Inductive io_error :=
| Err_OS (msg : str)
| Err_Unicode (msg : str).

Definition exn_of_io (e : io_error) : exn :=
  match e with
  | Err_OS m => Exn OSError m
  | Err_Unicode m => Exn UnicodeError m
  end.

(** [data.encode("utf-8")] under errors="strict": the exception it
    raises, if it raises.  [str(e)] names the surrogate and its index,
    or the first and the last index of a run of them. *)
Definition utf8_encode_error (data : str) : option exn :=
  match first_surrogate data 0 with
  | None => None
  | Some (start, c, 1) =>
      Some (Exn UnicodeEncodeError
              (lit "'utf-8' codec can't encode character '\u" ++ hex4 c
               ++ lit "' in position " ++ str_of_nat start
               ++ lit ": surrogates not allowed"))
  | Some (start, _, n) =>
      Some (Exn UnicodeEncodeError
              (lit "'utf-8' codec can't encode characters in position "
               ++ str_of_nat start ++ lit "-" ++ str_of_nat (start + n - 1)
               ++ lit ": surrogates not allowed"))
  end.

(** A value a callback hands back: [None] or a [str]. *)
Abbreviation response := (option str) (only parsing).

Inductive level := DEBUG | INFO | ERROR.

(** What an observer of the process sees: callback invocations with their
    positional arguments, and log records. *)
Inductive event :=
| Called (args : list str)
| Logged (lv : level) (msg : str).

(** The state every operation runs in.  [io_faults] is the plan of the
    environment: each file-system call consumes its head, and fails with
    the error found there, if any (an exhausted plan means no fault). *)
Record world := World {
  disk : files;
  io_faults : list (option io_error);
  trace : list event
}.

(** Computations: state passing with exceptions. *)
Definition M (A : Type) : Type := world -> outcome A * world.

Definition ret {A} (a : A) : M A := fun w => (Returns a, w).

Definition raise {A} (e : exn) : M A := fun w => (Raises e, w).

Definition bind {A B} (m : M A) (k : A -> M B) : M B :=
  fun w =>
    match m w with
    | (Returns a, w') => k a w'
    | (Raises e, w') => (Raises e, w')
    end.

(** [try: body  except <class> as e: handler] *)
Definition try_except {A} (body : M A) (caught : exn -> bool)
    (handler : exn -> M A) : M A :=
  fun w =>
    match body w with
    | (Raises e, w') => if caught e then handler e w' else (Raises e, w')
    | r => r
    end.

End Py.

Import Py.

Notation "x <- m ;; k" := (bind m (fun x => k))
  (at level 100, m at next level, right associativity).
Notation "m ;;; k" := (bind m (fun _ => k))
  (at level 100, right associativity).

(** ** File-system calls *)

Module IO.

(** Every call first consults the fault plan. *)
Definition fault : M unit :=
  fun w =>
    match io_faults w with
    | Some err :: plan => (Raises (exn_of_io err), World (disk w) plan (trace w))
    | None :: plan => (Returns tt, World (disk w) plan (trace w))
    | [] => (Returns tt, w)
    end.

Definition get_file (p : path) : M (option str) :=
  fun w => (Returns (file_at p (disk w)), w).

Definition put_file (p : path) (c : str) : M unit :=
  fun w => (Returns tt, World (set_file p (Some c) (disk w)) (io_faults w) (trace w)).

(** [p.exists()] *)
Definition path_exists (p : path) : M bool :=
  fault ;;;
  f <- get_file p ;;
  ret (bool_decide (is_Some f)).

(** [p.read_text(...)], in text mode *)
Definition read_text (p : path) : M str :=
  fault ;;;
  f <- get_file p ;;
  match f with
  | Some c => ret (universal_newlines c)
  | None => raise (Exn OSError (lit "[Errno 2] No such file or directory"))
  end.

(** [p.write_text(data, ...)]: the file is replaced by [data].  The
    tools call it on the header, a literal, and on text put together
    from what [read_text] returned, which holds no surrogate. *)
Definition write_text (p : path) (data : str) : M unit :=
  fault ;;;
  put_file p data.

(** [with open(p, "a", encoding="utf-8") as f: f.write(data)]: opening
    creates a missing file; [write] encodes [data] before any of it
    reaches the file, and raises when it does not encode; otherwise
    [data] goes after what the file holds. *)
Definition append_text (p : path) (data : str) : M unit :=
  fault ;;;
  f <- get_file p ;;
  match utf8_encode_error data with
  | Some e => put_file p (default [] f) ;;; raise e
  | None => put_file p (default [] f ++ data)
  end.

(** [logger.<level>(msg)] *)
Definition log (lv : level) (msg : str) : M unit :=
  fun w => (Returns tt, World (disk w) (io_faults w) (trace w ++ [Logged lv msg])).

End IO.

Import IO.

(** ** agent/tools/todo.py *)

Module Todo.

(** The marker of a pending task and the marker of a completed one. *)
Definition UNCHECKED : str := lit "- [ ]".
Definition CHECKED : str := lit "- [x]".

(** [TodoAddTaskTool.execute(task, priority)] *)
Definition TodoAddTaskTool_execute (task priority : str) : M str :=
  try_except
    (present <- path_exists TODO_md ;;
     (if negb present
      then write_text TODO_md (lit "# TODO" ++ [LF; LF])
      else ret tt) ;;;
     append_text TODO_md
       (lit "- [ ] [" ++ priority ++ lit "] " ++ task ++ [LF]) ;;;
     ret (lit "Task added: '" ++ task ++ lit "' with priority " ++ priority))
    is_Exception
    (fun e => ret (lit "Error adding task: " ++ exn_str e)).

(** [TodoListTasksTool.execute(only_pending)] *)
Definition TodoListTasksTool_execute (only_pending : bool) : M str :=
  try_except
    (present <- path_exists TODO_md ;;
     if negb present
     then ret (lit "No TODO.md file found. No tasks to list.")
     else
       content <- read_text TODO_md ;;
       let lines := splitlines content in
       if only_pending then
         let pending_lines := filter (fun line => contains UNCHECKED line) lines in
         match pending_lines with
         | [] => ret (lit "No pending tasks found.")
         | _ => ret (lit "Pending tasks:" ++ [LF] ++ join [LF] pending_lines)
         end
       else
         match lines with
         | [] => ret (lit "TODO.md is empty.")
         | _ => ret (lit "All tasks:" ++ [LF] ++ join [LF] lines)
         end)
    is_Exception
    (fun e => ret (lit "Error listing tasks: " ++ exn_str e)).

(** The search loop of [TodoCompleteTaskTool.execute]:
      [for i, line in enumerate(lines)], with [lines[i] = ...] and [break]
    at the first line that passes the test.  [todo] is what is left to
    enumerate, [lines] the list being updated; the result is [found]
    and the list. *)
Fixpoint complete_loop (task_content : str) (i : nat) (todo lines : list str)
    : bool * list str :=
  match todo with
  | [] => (false, lines)
  | line :: rest =>
      if contains task_content line && contains UNCHECKED line
      then (true, <[i := replace line UNCHECKED CHECKED]> lines)
      else complete_loop task_content (S i) rest lines
  end.

(** [TodoCompleteTaskTool.execute(task_content)] *)
Definition TodoCompleteTaskTool_execute (task_content : str) : M str :=
  try_except
    (present <- path_exists TODO_md ;;
     if negb present
     then ret (lit "Error: TODO.md file not found.")
     else
       content <- read_text TODO_md ;;
       let lines := splitlines content in
       let '(found, lines) := complete_loop task_content 0 lines lines in
       if negb found
       then ret (lit "Error: Task containing '" ++ task_content
                 ++ lit "' not found in TODO.md")
       else
         write_text TODO_md (join [LF] lines) ;;;
         ret (lit "Task marked as completed: '" ++ task_content ++ lit "'"))
    is_Exception
    (fun e => ret (lit "Error completing task: " ++ exn_str e)).

(** What the three classes share with their base class [Tool]: a name, a
    description, and [execute] on the arguments of the call. *)
Record Tool (Args : Type) := {
  name : str;
  description : str;
  execute : Args -> M str
}.
Arguments name {Args} _.
Arguments description {Args} _.
Arguments execute {Args} _ _.

Definition TodoAddTaskTool : Tool (str * str) := {|
  name := lit "add_task";
  description := lit "Add a task to TODO.md file in workspace root.";
  execute := fun '(task, priority) => TodoAddTaskTool_execute task priority
|}.

Definition TodoListTasksTool : Tool bool := {|
  name := lit "list_tasks";
  description := lit "List tasks from TODO.md file in workspace root.";
  execute := TodoListTasksTool_execute
|}.

Definition TodoCompleteTaskTool : Tool str := {|
  name := lit "complete_task";
  description := lit "Mark a task as completed in TODO.md file.";
  execute := TodoCompleteTaskTool_execute
|}.

End Todo.

Import Todo.

(** ** skills/todo.py *)

(** Each wrapper, and each method of [TodoManager], builds the tool for
    the workspace and awaits its [execute]. *)
Module Skills.

Definition add_task (task priority : str) : M str :=
  execute TodoAddTaskTool (task, priority).

Definition list_tasks (only_pending : bool) : M str :=
  execute TodoListTasksTool only_pending.

Definition complete_task (task_content : str) : M str :=
  execute TodoCompleteTaskTool task_content.

End Skills.

(** ** heartbeat/service.py *)

Module Heartbeat.

Definition HEARTBEAT_PROMPT : str :=
  lit "Read HEARTBEAT.md in your workspace (if it exists)." ++ [LF]
  ++ lit "Follow any instructions or tasks listed there." ++ [LF]
  ++ lit "If nothing needs attention, reply with just: HEARTBEAT_OK".

Definition HEARTBEAT_OK_TOKEN : str := lit "HEARTBEAT_OK".

Definition skip_patterns : list str :=
  [lit "- [ ]"; lit "* [ ]"; lit "- [x]"; lit "* [x]"].

(** The test of the loop body of [_is_heartbeat_empty], on a line that
    has been stripped: such a line is passed over. *)
Definition skipped (line : str) : bool :=
  bool_decide (line = []) || startswith line (lit "#")
  || startswith line (lit "<!--") || bool_decide (line ∈ skip_patterns).

(** The loop of [_is_heartbeat_empty]: [return False] at the first line
    that is not passed over, [return True] after the last one. *)
Fixpoint heartbeat_loop (lines : list str) : bool :=
  match lines with
  | [] => true
  | line :: rest =>
      let line := strip line in
      if skipped line then heartbeat_loop rest else false
  end.

Definition _is_heartbeat_empty (content : option str) : bool :=
  match content with
  | None | Some [] => true
  | Some c => heartbeat_loop (split c LF)
  end.

(** The [on_heartbeat] callable: given what has happened so far and its
    positional arguments it returns or raises, and may change the files.
    A callable that does not take the number of arguments it is given
    raises [TypeError]. *)
Definition callback : Type :=
  list event -> list str -> files -> outcome response * files.

Record HeartbeatService := {
  on_heartbeat : option callback;
  interval_s : Z;
  enabled : bool;
  proactive_enabled : bool;
  proactive_channel : str;
  proactive_chat_id : str;
  _running : bool;
  _task : option nat
}.

(** [await self.on_heartbeat(...)] with the given positional arguments *)
Definition invoke (cb : callback) (args : list str) : M response :=
  fun w =>
    let '(r, d) := cb (trace w) args (disk w) in
    (r, World d (io_faults w) (trace w ++ [Called args])).

(** [_read_heartbeat_file] *)
Definition _read_heartbeat_file : M (option str) :=
  present <- path_exists HEARTBEAT_md ;;
  if present
  then try_except (c <- read_text HEARTBEAT_md ;; ret (Some c))
         is_Exception (fun _ => ret None)
  else ret None.

(** [response[:100] if response else 'no response'] *)
Definition brief (r : response) : str :=
  match r with
  | None | Some [] => lit "no response"
  | Some r => slice_to 100 r
  end.

Section Tick.

(** [str.upper], whose table is Unicode's. *)
Variable upper : str -> str.

Variable self : HeartbeatService.

(** The answer of the agent normalised and searched for the token. *)
Definition says_ok (r : str) : bool :=
  contains (replace HEARTBEAT_OK_TOKEN (lit "_") [])
           (replace (upper r) (lit "_") []).

(** The try statement of the proactive check. *)
Definition proactive_call (cb : callback) (prompt : str) : M unit :=
  try_except
    (r <- invoke cb [prompt; proactive_channel self; proactive_chat_id self] ;;
     log INFO (lit "Proactive heartbeat completed: " ++ brief r))
    is_TypeError
    (fun _ =>
       r <- invoke cb [prompt] ;;
       log INFO (lit "Proactive heartbeat completed (legacy): " ++ brief r)).

Definition proactive_prompt (content : str) : str :=
  lit "SYSTEM_WAKEUP: Pending tasks detected in TODO.md:" ++ [LF; LF]
  ++ content ++ [LF; LF]
  ++ lit "Instruction: Check these tasks. If action is required, execute it. "
  ++ lit "If a task is completed, use 'complete_task' tool to mark it [x].".

(** First half of [_tick]: the scan of TODO.md. *)
Definition proactive_check : M unit :=
  present <- path_exists TODO_md ;;
  if present then
    content <- try_except (read_text TODO_md) is_Exception (fun _ => ret []) ;;
    if contains UNCHECKED content then
      match on_heartbeat self with
      | Some cb =>
          if proactive_enabled self
             && negb (bool_decide (proactive_chat_id self = []))
          then
            log INFO (lit "Proactive heartbeat: pending tasks in TODO.md") ;;;
            proactive_call cb (proactive_prompt content)
          else ret tt
      | None => ret tt
      end
    else ret tt
  else ret tt.

(** Second half of [_tick]: the check of HEARTBEAT.md. *)
Definition instructions_check : M unit :=
  content <- _read_heartbeat_file ;;
  if _is_heartbeat_empty content
  then log DEBUG (lit "Heartbeat: no tasks (HEARTBEAT.md empty)")
  else
    log INFO (lit "Heartbeat: checking for tasks...") ;;;
    match on_heartbeat self with
    | Some cb =>
        try_except
          (r <- invoke cb [HEARTBEAT_PROMPT] ;;
           match r with
           | None =>
               raise (Exn AttributeError
                        (lit "'NoneType' object has no attribute 'upper'"))
           | Some r =>
               if says_ok r
               then log INFO (lit "Heartbeat: OK (no action needed)")
               else log INFO (lit "Heartbeat: completed task")
           end)
          is_Exception
          (fun e => log ERROR (lit "Heartbeat execution failed: " ++ exn_str e))
    | None => ret tt
    end.

Definition _tick : M unit :=
  proactive_check ;;;
  instructions_check.

(** [trigger_now] *)
Definition trigger_now : M response :=
  match on_heartbeat self with
  | Some cb =>
      try_except (invoke cb [HEARTBEAT_PROMPT]) is_TypeError
        (fun _ => invoke cb [HEARTBEAT_PROMPT; lit "cli"; lit "trigger"])
  | None => ret None
  end.

End Tick.

(** *** The service as a process

    [_run_loop] is a coroutine.  It is suspended either before its first
    step or in [await asyncio.sleep(...)]; the event loop resumes it when
    the sleep is over or when the task has been cancelled, in which case
    [CancelledError] is raised at the point of suspension.  A tick,
    callbacks included, runs within one resumption.  When the sleep
    itself raises, the coroutine goes round its loop without ever
    suspending; such a task is followed one turn of the loop at a
    time. *)

Inductive task_state :=
| Created                (* scheduled by [create_task], not yet run *)
| Sleeping               (* suspended in [await asyncio.sleep] *)
| Spinning               (* turning in the loop without suspending *)
| Finished               (* the coroutine returned *)
| Cancelled              (* [CancelledError] left the coroutine *)
| Failed (e : exn).      (* another exception left the coroutine *)

(** An [asyncio.Task]: where its coroutine stands, and whether
    [cancel()] has been requested and not yet delivered. *)
Record task := Task { state : task_state; must_cancel : bool }.

(** [ticks] counts the calls of [_tick]; the program does not read it. *)
Record runtime := Runtime {
  service : HeartbeatService;
  tasks : list task;
  env : world;
  ticks : nat
}.

Definition set_running (b : bool) (s : HeartbeatService) : HeartbeatService :=
  {| on_heartbeat := on_heartbeat s; interval_s := interval_s s;
     enabled := enabled s; proactive_enabled := proactive_enabled s;
     proactive_channel := proactive_channel s;
     proactive_chat_id := proactive_chat_id s;
     _running := b; _task := _task s |}.

Definition set_task (t : option nat) (s : HeartbeatService) : HeartbeatService :=
  {| on_heartbeat := on_heartbeat s; interval_s := interval_s s;
     enabled := enabled s; proactive_enabled := proactive_enabled s;
     proactive_channel := proactive_channel s;
     proactive_chat_id := proactive_chat_id s;
     _running := _running s; _task := t |}.

(** The decimal digits of [abs(n)]. *)
Definition digits_of_int (n : Z) : string :=
  NilZero.string_of_uint (N.to_uint (Z.abs_N n)).

(** [str(n)] for an [int], which is what an f-string field takes: the
    interpreter (CPython 3.11 and later, with its default limit)
    refuses a conversion of more than 4300 digits with ValueError. *)
Definition str_of_int (n : Z) : exn + str :=
  if 4300 <? String.length (digits_of_int n)
  then inl (Exn ValueError
              (lit "Exceeds the limit (4300 digits) for integer string conversion; "
               ++ lit "use sys.set_int_max_str_digits() to increase the limit"))
  else inr (lit (NilZero.string_of_int (Z.to_int n))).

(** [start].  The text of the second log record is built after the
    task has been created. *)
Definition start (rt : runtime) : outcome unit * runtime :=
  if negb (enabled (service rt)) then
    let '(r, w) := log INFO (lit "Heartbeat disabled") (env rt) in
    (r, Runtime (service rt) (tasks rt) w (ticks rt))
  else
    let s := set_running true (service rt) in
    let s := set_task (Some (length (tasks rt))) s in
    let started := Runtime s (tasks rt ++ [Task Created false]) in
    match str_of_int (interval_s s) with
    | inl e => (Raises e, started (env rt) (ticks rt))
    | inr n =>
        let '(r, w) :=
          log INFO (lit "Heartbeat started (every " ++ n ++ lit "s)") (env rt) in
        (r, started w (ticks rt))
    end.

(** [Task.cancel()]: a request, delivered when the task is next
    suspended; it does nothing to a task that is done. *)
Definition cancel (t : task) : task :=
  match state t with
  | Created | Sleeping | Spinning => Task (state t) true
  | _ => t
  end.

(** The least int that does not convert to a float: it rounds to 2^1024. *)
Definition FLOAT_LIMIT : Z := 2 ^ 1024 - 2 ^ 970.

(** [await asyncio.sleep(delay)] for an int: the delay is added to the
    clock of the event loop, a float, and an int that does not convert
    raises OverflowError before anything is awaited; any other delay
    suspends the task (a delay of zero or less for one turn of the event
    loop). *)
Definition sleep_error (delay : Z) : option exn :=
  if (FLOAT_LIMIT <=? delay)%Z
  then Some (Exn OverflowError (lit "int too large to convert to float"))
  else None.

(** [stop] *)
Definition stop (rt : runtime) : outcome unit * runtime :=
  let s := set_running false (service rt) in
  match _task s with
  | Some h =>
      (Returns tt,
       Runtime (set_task None s) (alter cancel h (tasks rt)) (env rt) (ticks rt))
  | None => (Returns tt, Runtime s (tasks rt) (env rt) (ticks rt))
  end.

Section Loop.

Variable upper : str -> str.

(** [while self._running:] followed by the [await] of the sleep, in the
    state [w]: where the task stands next.  When the sleep raises, the
    handler for [Exception] logs and the loop turns again, to the same
    effect as long as nothing changes: the coroutine does not suspend. *)
Definition loop_test (s : HeartbeatService) (w : world) : task_state * world :=
  if _running s then
    match sleep_error (interval_s s) with
    | None => (Sleeping, w)
    | Some e => (Spinning, snd (log ERROR (lit "Heartbeat error: " ++ exn_str e) w))
    end
  else (Finished, w).

(** One resumption of the task with handle [h] running [_run_loop]; for
    a task that turns in the loop without suspending, one more turn. *)
Definition resume (h : nat) (rt : runtime) : runtime :=
  let s := service rt in
  let park st w n := Runtime s (<[h := Task st false]> (tasks rt)) w n in
  let again w n := let '(st, w') := loop_test s w in park st w' n in
  match tasks rt !! h with
  | Some (Task Created true) => park Cancelled (env rt) (ticks rt)
  | Some (Task Created false) => again (env rt) (ticks rt)
  | Some (Task Sleeping true) =>
      (* except asyncio.CancelledError: break *)
      park Finished (env rt) (ticks rt)
  | Some (Task Sleeping false) =>
      if _running s then
        match _tick upper s (env rt) with
        | (Returns _, w) => again w (S (ticks rt))
        | (Raises e, w) =>
            if is_CancelledError e then park Finished w (S (ticks rt))
            else if is_Exception e then
              let '(_, w') := log ERROR (lit "Heartbeat error: " ++ exn_str e) w in
              again w' (S (ticks rt))
            else park (Failed e) w (S (ticks rt))
        end
      else again (env rt) (ticks rt)
  | Some (Task Spinning c) =>
      (* a request to cancel waits for the task to suspend *)
      let '(st, w') := loop_test s (env rt) in
      let c' := match st with Finished => false | _ => c end in
      Runtime s (<[h := Task st c']> (tasks rt)) w' (ticks rt)
  | _ => rt
  end.

(** The event loop resuming tasks in some order. *)
Fixpoint run (schedule : list nat) (rt : runtime) : runtime :=
  match schedule with
  | [] => rt
  | h :: rest => run rest (resume h rt)
  end.

End Loop.

End Heartbeat.

Import Heartbeat.

(** * Vocabulary of the statements *)

(** [p] occurs in [s] at one place only, after [pre] and before [post]. *)
Definition occurs_once (p s pre post : str) : Prop :=
  s = pre ++ p ++ post /\ forall a b, s = a ++ p ++ b -> a = pre.

(** A line: no character of it is a line boundary. *)
Definition line_ok (l : str) : Prop := Forall (fun c => is_linebreak c = false) l.

(** What is read back from lines joined by "\n": the same lines, less an
    empty last one. *)
Definition reread (ls : list str) : list str :=
  match list.last ls with
  | Some [] => removelast ls
  | _ => ls
  end.

(** [a] is empty or ends with a line boundary, which [b] does not
    continue (as "\n" would continue "\r"). *)
Definition closed_before (a b : str) : Prop :=
  match list.last a with
  | None => True
  | Some c => is_linebreak c = true /\ (c = CR -> head b <> Some LF)
  end.

(** The test of the search loop. *)
Definition selects (task_content line : str) : bool :=
  contains task_content line && contains UNCHECKED line.

Definition msg_completed (tc : str) : str :=
  lit "Task marked as completed: '" ++ tc ++ lit "'".
Definition msg_not_found (tc : str) : str :=
  lit "Error: Task containing '" ++ tc ++ lit "' not found in TODO.md".

(** The line [TodoAddTaskTool.execute] writes, without its terminator. *)
Definition task_line (priority task : str) : str :=
  lit "- [ ] [" ++ priority ++ lit "] " ++ task.

Definition msg_added (task priority : str) : str :=
  lit "Task added: '" ++ task ++ lit "' with priority " ++ priority.

Definition TODO_HEADER : str := lit "# TODO" ++ [LF; LF].

(** A text that is empty or ends with a line boundary. *)
Definition ends_lines (a : str) : Prop :=
  match list.last a with
  | None => True
  | Some c => is_linebreak c = true
  end.

(** A text that UTF-8 encodes: it holds no surrogate. *)
Definition encodable (s : str) : Prop :=
  Forall (fun c => is_surrogate c = false) s.

(** A task whose description mentions the marker, as [add_task] writes it. *)
Definition marker_task_file : str :=
  lit "# TODO" ++ [LF; LF]
  ++ lit "- [ ] [NORMAL] explain the - [ ] marker" ++ [LF].

(** [m] raises nothing but exceptions that [caught] accepts. *)
Definition raises_only {A} (caught : exn -> bool) (m : M A) : Prop :=
  forall w e w', m w = (Raises e, w') -> caught e = true.

(** [m] returns, whatever the state. *)
Definition total {A} (m : M A) : Prop :=
  forall w, exists a w', m w = (Returns a, w').


(** A trimmed line that carries nothing to act on, in the words of the
    specification: empty, a heading, a markup comment, or a bare
    checkbox. *)
Definition not_actionable (t : str) : Prop :=
  t = [] \/ (exists r, t = lit "#" ++ r) \/ (exists r, t = lit "<!--" ++ r)
  \/ t = lit "- [ ]" \/ t = lit "* [ ]" \/ t = lit "- [x]" \/ t = lit "* [x]".

(** The state after a callback invocation that left the files as [d]. *)
Definition after_call (w : world) (args : list str) (d : files) : world :=
  World d (io_faults w) (trace w ++ [Called args]).

(** A callable of the channel-aware shape: three arguments or [TypeError]. *)
Definition channel_aware_agent : callback :=
  fun _ args d =>
    match args with
    | [_; _; _] => (Returns (Some (lit "done")), d)
    | _ => (Raises (Exn TypeError (lit "missing 2 required positional arguments")), d)
    end.

Definition service_of (cb : option callback) (proactive : bool) (chat : str)
    : HeartbeatService :=
  {| on_heartbeat := cb; interval_s := 1800; enabled := true;
     proactive_enabled := proactive; proactive_channel := lit "qq";
     proactive_chat_id := chat; _running := true; _task := None |}.

(** A callable of the channel-aware shape whose delivery fails. *)
Definition failing_notifier : callback :=
  fun _ args d =>
    match args with
    | [_; _; _] => (Raises (Exn RuntimeError (lit "send failed")), d)
    | _ => (Returns (Some (lit "HEARTBEAT_OK")), d)
    end.

(** A callable of the prompt-only shape that fails when it runs. *)
Definition failing_legacy_agent : callback :=
  fun _ args d =>
    match args with
    | [_] => (Raises (Exn RuntimeError (lit "agent crashed")), d)
    | _ => (Raises (Exn TypeError (lit "takes 1 positional argument but 3 were given")), d)
    end.

(** A callable of the prompt-only shape. *)
Definition prompt_only_agent : callback :=
  fun _ args d =>
    match args with
    | [_] => (Returns (Some (lit "HEARTBEAT_OK")), d)
    | _ => (Raises (Exn TypeError (lit "takes 1 positional argument but 3 were given")), d)
    end.

(** One pending task, and instructions that call for action. *)
Definition busy_workspace : world :=
  World (Files (Some (lit "- [ ] a" ++ [LF]))
               (Some (lit "water the plants" ++ [LF])))
        [] [].

#[global] Instance level_eq_dec : EqDecision level.
Proof. solve_decision. Defined.

#[global] Instance event_eq_dec : EqDecision event.
Proof. solve_decision. Defined.

(** The second half of a tick has been entered when one of its two
    opening log records is present. *)
Definition reached_instructions_check (tr : list event) : bool :=
  bool_decide (Logged DEBUG (lit "Heartbeat: no tasks (HEARTBEAT.md empty)") ∈ tr)
  || bool_decide (Logged INFO (lit "Heartbeat: checking for tasks...") ∈ tr).

(** Two pending tasks, the second line without a terminator. *)
Definition two_task_file : str := lit "- [ ] a" ++ [LF] ++ lit "- [ ] b".

(** A started service whose loop task, of handle 0, sleeps. *)
Definition sleeping_service : runtime :=
  Runtime (set_task (Some 0) (service_of None false []))
    [Task Sleeping false] (World (Files None None) [] []) 0.

(** [m] leaves every state related by [R] to the state it ends in. *)
Definition keeps {A} (R : world -> world -> Prop) (m : M A) : Prop :=
  forall w, R w (snd (m w)).

(** The files and the trace are the same. *)
Definition same_files (w w' : world) : Prop :=
  disk w' = disk w /\ trace w' = trace w.

(** HEARTBEAT.md and the trace are the same. *)
Definition same_but_todo (w w' : world) : Prop :=
  heartbeat_md (disk w') = heartbeat_md (disk w) /\ trace w' = trace w.

(** [add_task] called for each (description, priority) in turn, as the
    example of skills/todo.py does; the texts returned are dropped. *)
Fixpoint add_tasks (ts : list (str * str)) : M unit :=
  match ts with
  | [] => ret tt
  | (task, priority) :: rest =>
      _ <- Skills.add_task task priority ;; add_tasks rest
  end.

(** The lines [list_tasks] takes for pending. *)
Definition pending_of (ls : list str) : list str :=
  filter (fun l => contains UNCHECKED l) ls.

(** The line of a (description, priority) pair. *)
Definition task_line_of (t : str * str) : str := task_line (snd t) (fst t).

(** A text without line boundary that UTF-8 encodes. *)
Definition plain (s : str) : Prop := line_ok s /\ encodable s.

(** The text the calls of [add_tasks] append. *)
Definition written (ts : list (str * str)) : str :=
  concat (map (fun t => task_line_of t ++ [LF]) ts).

(** The text [list_tasks(only_pending=True)] returns when it has found
    the lines [ls] pending. *)
Definition pending_listing (ls : list str) : str :=
  match ls with
  | [] => lit "No pending tasks found."
  | _ => lit "Pending tasks:" ++ [LF] ++ join [LF] ls
  end.

(** One of the conditions of the proactive call fails: no marker in the
    content of TODO.md, the option off, no chat id, or no callback. *)
Definition no_proactive_call (self : HeartbeatService) (content : str) : Prop :=
  contains UNCHECKED content = false \/ proactive_enabled self = false
  \/ proactive_chat_id self = [] \/ on_heartbeat self = None.

(** The opening log records of the second half of a tick. *)
Definition LOG_NO_TASKS : event :=
  Logged DEBUG (lit "Heartbeat: no tasks (HEARTBEAT.md empty)").

Definition LOG_CHECKING : event :=
  Logged INFO (lit "Heartbeat: checking for tasks...").

(** A text less its underscores. *)
Definition without_underscores (s : str) : str :=
  filter (fun c => c <> 95%N) s.

(** A callable that raises nothing outside [Exception]. *)
Definition raises_Exception_only (cb : callback) : Prop :=
  forall tr args d e d', cb tr args d = (Raises e, d') -> is_Exception e = true.

(** A task whose coroutine has ended. *)
Definition is_done (t : task) : bool :=
  match state t with
  | Finished | Cancelled | Failed _ => true
  | Created | Sleeping | Spinning => false
  end.

(** A service that has not been started, in an empty workspace. *)
Definition fresh_service : runtime :=
  Runtime {| on_heartbeat := None; interval_s := 1800; enabled := true;
             proactive_enabled := false; proactive_channel := lit "qq";
             proactive_chat_id := []; _running := false; _task := None |}
    [] (World (Files None None) [] []) 0.

(** A service that has not been started, with an interval of 2^1024
    seconds. *)
Definition huge_interval_service : runtime :=
  Runtime {| on_heartbeat := None; interval_s := 2 ^ 1024; enabled := true;
             proactive_enabled := false; proactive_channel := lit "qq";
             proactive_chat_id := []; _running := false; _task := None |}
    [] (World (Files None None) [] []) 0.

(** A running service whose callback fails at every call, its loop task
    asleep, in a workspace that gives the tick work to do. *)
Definition failing_service : runtime :=
  Runtime (set_task (Some 0) (service_of (Some failing_legacy_agent) false []))
    [Task Sleeping false] busy_workspace 0.

(** * Lemmas *)

(** ** Text *)

Section Text.

Implicit Types (s t p : str) (c : char).

Lemma startswith_nil_r s : startswith s [] = true.
Proof. by destruct s. Qed.

Lemma startswith_app s p : startswith (p ++ s) p = true.
Proof. induction p as [|a p IH]; simpl; [apply startswith_nil_r|]. by rewrite N.eqb_refl. Qed.

Lemma startswith_prefix s p : startswith s p = true <-> exists t, s = p ++ t.
Proof.
  split.
  - revert s. induction p as [|a p IH]; intros s H.
    + by exists s.
    + destruct s as [|b s]; [done|]. simpl in H.
      apply andb_true_iff in H as [Hab H]. apply N.eqb_eq in Hab as ->.
      destruct (IH _ H) as [t ->]. by exists t.
  - intros [t ->]. apply startswith_app.
Qed.

Lemma contains_nil p : contains p [] = startswith [] p.
Proof. simpl. apply orb_false_r. Qed.

Lemma contains_cons p c s :
  contains p (c :: s) = startswith (c :: s) p || contains p s.
Proof. done. Qed.

Lemma contains_infix p s :
  contains p s = true <-> exists a b, s = a ++ p ++ b.
Proof.
  split.
  - induction s as [|c s IH]; intros H.
    + rewrite contains_nil in H. apply startswith_prefix in H as [t Ht].
      by exists [], t.
    + rewrite contains_cons in H. apply orb_true_iff in H as [H|H].
      * apply startswith_prefix in H as [t Ht]. by exists [], t.
      * destruct (IH H) as (a & b & ->). by exists (c :: a), b.
  - intros (a & b & ->). induction a as [|c a IH].
    + cbn [app]. destruct (p ++ b) eqn:E.
      * rewrite contains_nil, <- E. apply startswith_app.
      * rewrite contains_cons, <- E, startswith_app. done.
    + cbn [app]. rewrite contains_cons, IH. apply orb_true_r.
Qed.

Lemma replace_from_skip old new k s :
  replace_from old new k s = replace_from old new 0 (drop k s).
Proof.
  revert k. induction s as [|c s IH]; intros [|k]; simpl; [done..|apply IH].
Qed.

End Text.

Section Marker.
Implicit Types (s t p : str) (c : char).

Lemma UNCHECKED_chars : UNCHECKED = [45; 32; 91; 32; 93]%N.
Proof. reflexivity. Qed.

Lemma CHECKED_chars : CHECKED = [45; 32; 91; 120; 93]%N.
Proof. reflexivity. Qed.

Lemma mark_cons c s :
  replace (c :: s) UNCHECKED CHECKED =
  if startswith (c :: s) UNCHECKED
  then CHECKED ++ replace (drop 4 s) UNCHECKED CHECKED
  else c :: replace s UNCHECKED CHECKED.
Proof.
  rewrite UNCHECKED_chars. unfold replace. cbn [replace_from].
  destruct (startswith (c :: s) _); [|done].
  by rewrite replace_from_skip.
Qed.

(** A prefix of the result that holds no hyphen was a prefix of the
    argument: a replaced occurrence starts with a hyphen. *)
Lemma mark_prefix_back s p :
  45%N ∉ p ->
  startswith (replace s UNCHECKED CHECKED) p = true -> startswith s p = true.
Proof.
  revert s. induction p as [|a p IH]; intros s Ha H; [apply startswith_nil_r|].
  apply not_elem_of_cons in Ha as [Ha Hp].
  destruct s as [|c s]; [done|].
  rewrite mark_cons in H. destruct (startswith (c :: s) UNCHECKED) eqn:E.
  - rewrite CHECKED_chars in H. cbn in H.
    apply andb_true_iff in H as [H _]. apply N.eqb_eq in H. congruence.
  - cbn in H. apply andb_true_iff in H as [H1 H2]. cbn.
    rewrite H1. by apply IH.
Qed.

Lemma mark_no_marker s :
  contains UNCHECKED (replace s UNCHECKED CHECKED) = false.
Proof.
  remember (length s) as n eqn:Hn. revert s Hn.
  induction n as [n IH] using lt_wf_ind. intros s ->.
  destruct s as [|c s]; [done|].
  rewrite mark_cons. destruct (startswith (c :: s) UNCHECKED) eqn:E.
  - assert (contains UNCHECKED (replace (drop 4 s) UNCHECKED CHECKED) = false) as Hm.
    { eapply IH; [|done]. rewrite length_drop. simpl. lia. }
    revert Hm. generalize (replace (drop 4 s) UNCHECKED CHECKED). intros m Hm.
    rewrite CHECKED_chars. cbn [app]. rewrite !contains_cons, Hm.
    rewrite UNCHECKED_chars. reflexivity.
  - rewrite contains_cons. rewrite (IH (length s)); [|simpl; lia|done].
    rewrite orb_false_r. apply not_true_is_false. intros H.
    rewrite UNCHECKED_chars in H, E. cbn in H.
    apply andb_true_iff in H as [H1 H2].
    apply (mark_prefix_back _ [32; 91; 32; 93]%N) in H2.
    + cbn in E. rewrite H1 in E. cbn in H2. by rewrite H2 in E.
    + intros Hin. repeat (apply elem_of_cons in Hin as [Hin|Hin]; [discriminate|]).
      by apply elem_of_nil in Hin.
Qed.

Lemma startswith_false_of_contains p s :
  contains p s = false -> startswith s p = false.
Proof.
  destruct s; [by rewrite contains_nil|].
  rewrite contains_cons. by intros [? _]%orb_false_iff.
Qed.

Lemma mark_unchanged s :
  contains UNCHECKED s = false -> replace s UNCHECKED CHECKED = s.
Proof.
  induction s as [|c s IH]; [done|]. intros H.
  rewrite mark_cons, (startswith_false_of_contains _ _ H).
  rewrite contains_cons in H. apply orb_false_iff in H as [_ H].
  by rewrite IH.
Qed.

Lemma mark_once s pre post :
  occurs_once UNCHECKED s pre post ->
  replace s UNCHECKED CHECKED = pre ++ CHECKED ++ post.
Proof.
  revert s. induction pre as [|c pre IH]; intros s [-> Huniq].
  - cbn [app]. rewrite UNCHECKED_chars at 1. cbn [app].
    rewrite mark_cons. rewrite UNCHECKED_chars at 1.
    change (startswith _ _) with (startswith (UNCHECKED ++ post) UNCHECKED).
    rewrite startswith_app. cbn [drop]. f_equal.
    apply mark_unchanged. apply not_true_is_false.
    intros (a & b & ->)%contains_infix.
    specialize (Huniq (UNCHECKED ++ a) b). rewrite <- app_assoc in Huniq.
    specialize (Huniq eq_refl). discriminate.
  - cbn [app]. rewrite mark_cons.
    destruct (startswith _ UNCHECKED) eqn:E.
    + apply startswith_prefix in E as [t Ht].
      specialize (Huniq [] t Ht). discriminate.
    + f_equal. apply IH. split; [done|]. intros a b Hab.
      specialize (Huniq (c :: a) b). cbn [app] in Huniq.
      rewrite Hab in Huniq. specialize (Huniq eq_refl). congruence.
Qed.

Lemma mark_chars (P : N -> Prop) s :
  Forall P CHECKED -> Forall P s -> Forall P (replace s UNCHECKED CHECKED).
Proof.
  intros HC. remember (length s) as n eqn:Hn. revert s Hn.
  induction n as [n IH] using lt_wf_ind. intros s -> Hs.
  destruct s as [|c s]; [done|]. rewrite mark_cons.
  inversion_clear Hs as [|? ? Hc Hs'].
  destruct (startswith _ _).
  - apply Forall_app_2; [done|].
    eapply IH; [|done|by apply Forall_drop]. rewrite length_drop. simpl. lia.
  - apply Forall_cons_2; [done|]. eapply IH; [|done|done]. simpl. lia.
Qed.

Lemma join_cons_cons sep g g' gs :
  join sep (g :: g' :: gs) = g ++ sep ++ join sep (g' :: gs).
Proof. done. Qed.

(** The result is the argument with markers rewritten and the text
    between them kept: both are the same pieces, joined by the one
    marker and by the other. *)
Lemma mark_segments s :
  exists g gs,
    s = join UNCHECKED (g :: gs) /\
    replace s UNCHECKED CHECKED = join CHECKED (g :: gs).
Proof.
  remember (length s) as n eqn:Hn. revert s Hn.
  induction n as [n IH] using lt_wf_ind. intros s ->.
  destruct s as [|c s]; [by exists [], []|].
  rewrite mark_cons. destruct (startswith (c :: s) UNCHECKED) eqn:E.
  - apply startswith_prefix in E as [t Ht].
    assert (drop 4 s = t) as ->.
    { rewrite UNCHECKED_chars in Ht. injection Ht as -> ->. done. }
    destruct (IH (length t)) with (s := t) as (g & gs & Ht1 & Ht2); [|done|].
    { apply (f_equal length) in Ht. rewrite length_app in Ht.
      rewrite UNCHECKED_chars in Ht. simpl in *. lia. }
    exists [], (g :: gs). rewrite !join_cons_cons, <- Ht1, <- Ht2. done.
  - destruct (IH (length s)) with (s := s) as (g & gs & Hs1 & Hs2);
      [simpl; lia|done|].
    exists (c :: g), gs. rewrite Hs2. rewrite Hs1 at 1.
    destruct gs; done.
Qed.

Lemma mark_changes s :
  contains UNCHECKED s = true -> replace s UNCHECKED CHECKED <> s.
Proof.
  intros H E. pose proof (mark_no_marker s) as Hn. rewrite E in Hn. congruence.
Qed.

End Marker.

Section Lines.
Implicit Types (s t p l : str) (c : char) (ls : list str).

(** Induction that may also step over two characters, as the functions
    that treat "\r\n" do. *)
Lemma two_step_ind (P : str -> Prop) :
  P [] ->
  (forall c s, P s -> (forall d s', s = d :: s' -> P s') -> P (c :: s)) ->
  forall s, P s.
Proof.
  intros H0 Hstep s.
  assert (P s /\ forall d s', s = d :: s' -> P s') as [? _]; [|done].
  induction s as [|c s [IH1 IH2]]; [by split|].
  split; [by apply Hstep|]. by intros ? ? [= <- <-].
Qed.

Lemma splitlines_cons_break c s :
  is_linebreak c = true ->
  splitlines (c :: s) =
  [] :: (if (c =? CR)%N
         then match s with
              | d :: s'' => if (d =? LF)%N then splitlines s'' else splitlines s
              | [] => []
              end
         else splitlines s).
Proof. intros H. cbn [splitlines]. by rewrite H. Qed.

Lemma splitlines_cons_char c s :
  is_linebreak c = false ->
  splitlines (c :: s) =
  match splitlines s with
  | l :: ls => (c :: l) :: ls
  | [] => [[c]]
  end.
Proof. intros H. cbn [splitlines]. by rewrite H. Qed.

Lemma splitlines_lines s : Forall line_ok (splitlines s).
Proof.
  induction s as [|c s IH1 IH2] using two_step_ind; [constructor|].
  destruct (is_linebreak c) eqn:Hc.
  - rewrite splitlines_cons_break by done. constructor; [constructor|].
    destruct (c =? CR)%N; [|done].
    destruct s as [|d s'']; [constructor|]. destruct (d =? LF)%N; [|done].
    by eapply IH2.
  - rewrite splitlines_cons_char by done.
    destruct (splitlines s) as [|l ls]; [repeat constructor; done|].
    inversion_clear IH1. constructor; [|done]. by constructor.
Qed.

Lemma splitlines_nonempty s : s <> [] -> splitlines s <> [].
Proof.
  destruct s as [|c s]; [done|]. intros _.
  destruct (is_linebreak c) eqn:Hc.
  - by rewrite splitlines_cons_break.
  - rewrite splitlines_cons_char by done. by destruct (splitlines s).
Qed.

Lemma splitlines_line_LF l s : line_ok l -> splitlines (l ++ LF :: s) = l :: splitlines s.
Proof.
  induction 1 as [|c l Hc Hl IH]; [done|].
  cbn [app]. rewrite splitlines_cons_char by done. by rewrite IH.
Qed.

Lemma splitlines_line l : line_ok l -> l <> [] -> splitlines l = [l].
Proof.
  induction 1 as [|c l Hc Hl IH]; [done|]. intros _.
  rewrite splitlines_cons_char by done.
  destruct l as [|d l]; [done|]. by rewrite IH.
Qed.

Lemma reread_cons l l2 ls : reread (l :: l2 :: ls) = l :: reread (l2 :: ls).
Proof.
  unfold reread. rewrite last_cons_cons.
  destruct (list.last (l2 :: ls)) as [[|]|]; done.
Qed.

Lemma splitlines_join ls :
  Forall line_ok ls -> splitlines (join [LF] ls) = reread ls.
Proof.
  induction 1 as [|l ls Hl Hls IH]; [done|].
  destruct ls as [|l2 ls].
  - cbn [join]. destruct l as [|c l]; [done|]. by apply splitlines_line.
  - rewrite reread_cons, <- IH. change (join [LF] (l :: l2 :: ls)) with
      (l ++ LF :: join [LF] (l2 :: ls)). by apply splitlines_line_LF.
Qed.

Lemma reread_lookup ls j l :
  ls !! j = Some l -> l <> [] \/ S j < length ls -> reread ls !! j = Some l.
Proof.
  intros Hj Hl. unfold reread. destruct (list.last ls) as [[|]|] eqn:E; try done.
  assert (j < length ls) as Hlt by (by eapply lookup_lt_Some).
  destruct ls as [|x ls _] using rev_ind; [done|].
  rewrite last_snoc in E. injection E as ->.
  rewrite removelast_last. rewrite length_app in Hlt, Hl. simpl in *.
  destruct (decide (j = length ls)) as [->|Hne].
  - rewrite list_lookup_middle in Hj by done. injection Hj as <-.
    destruct Hl; [done|lia].
  - rewrite lookup_app_l in Hj by lia. done.
Qed.

Lemma reread_incl ls j l : reread ls !! j = Some l -> ls !! j = Some l.
Proof.
  unfold reread. destruct (list.last ls) as [[|]|]; try done.
  destruct ls as [|x ls _] using rev_ind; [done|].
  rewrite removelast_last. intros H. rewrite lookup_app_l; [done|].
  by eapply lookup_lt_Some.
Qed.

Lemma splitlines_universal_newlines s :
  splitlines (universal_newlines s) = splitlines s.
Proof.
  induction s as [|c s IH1 IH2] using two_step_ind; [done|].
  cbn [universal_newlines]. destruct (c =? CR)%N eqn:Hc.
  - apply N.eqb_eq in Hc as ->.
    rewrite (splitlines_cons_break CR), (splitlines_cons_break LF) by done.
    cbn. f_equal. destruct s as [|d s'']; [done|].
    destruct (d =? LF)%N; [by eapply IH2|done].
  - destruct (is_linebreak c) eqn:Hb.
    + rewrite !splitlines_cons_break by done. by rewrite Hc, IH1.
    + rewrite !splitlines_cons_char by done. by rewrite IH1.
Qed.

End Lines.

Section App.
Implicit Types (s t p l : str) (c : char) (ls : list str).

Lemma closed_before_tail c d a b :
  closed_before (c :: d :: a) b -> closed_before (d :: a) b.
Proof. unfold closed_before. by rewrite last_cons_cons. Qed.

Lemma splitlines_app a b :
  closed_before a b -> splitlines (a ++ b) = splitlines a ++ splitlines b.
Proof.
  induction a as [|c a IH1 IH2] using two_step_ind; [done|]. intros Hcl.
  destruct (is_linebreak c) eqn:Hc.
  - cbn [app]. rewrite !splitlines_cons_break by done. cbn [app]. f_equal.
    destruct a as [|d a].
    + unfold closed_before in Hcl. cbn in Hcl. destruct Hcl as [_ Hcl].
      destruct (c =? CR)%N eqn:E; [|done]. apply N.eqb_eq in E.
      specialize (Hcl E). cbn [app]. destruct b as [|x b]; [done|].
      destruct (x =? LF)%N eqn:E2; [|done]. apply N.eqb_eq in E2.
      cbn in Hcl. congruence.
    + apply closed_before_tail in Hcl. cbn [app].
      destruct (c =? CR)%N; [|by apply IH1].
      destruct (d =? LF)%N; [|by apply IH1].
      apply (IH2 _ _ eq_refl).
      destruct a as [|e a]; [done|]. by apply closed_before_tail in Hcl.
  - destruct a as [|d a].
    { unfold closed_before in Hcl. cbn in Hcl. destruct Hcl. congruence. }
    apply closed_before_tail in Hcl. cbn [app].
    rewrite (splitlines_cons_char c (d :: a ++ b)) by done.
    rewrite (splitlines_cons_char c (d :: a)) by done.
    change (d :: a ++ b) with ((d :: a) ++ b). rewrite IH1 by done.
    pose proof (splitlines_nonempty (d :: a)) as Hne.
    destruct (splitlines (d :: a)) as [|l0 ls0]; [exfalso; by apply Hne|].
    reflexivity.
Qed.

(** Appending one terminated line to a text that ends properly. *)
Lemma splitlines_append_line a l :
  closed_before a l -> line_ok l -> l <> [] ->
  splitlines (a ++ l ++ [LF]) = splitlines a ++ [l].
Proof.
  intros Hcl Hl Hne. rewrite splitlines_app.
  - f_equal. by rewrite splitlines_line_LF.
  - unfold closed_before in *. destruct (list.last a); [|done].
    destruct Hcl as [? Hcl]. split; [done|]. intros E. specialize (Hcl E).
    by destruct l.
Qed.

Lemma startswith_universal_newlines s p :
  CR ∉ p -> LF ∉ p ->
  startswith (universal_newlines s) p = startswith s p.
Proof.
  revert s. induction p as [|a p IH]; intros s Hcr Hlf.
  { by rewrite !startswith_nil_r. }
  apply not_elem_of_cons in Hcr as [Hcr ?], Hlf as [Hlf ?].
  destruct s as [|c s]; [done|]. cbn [universal_newlines].
  destruct (c =? CR)%N eqn:E.
  - apply N.eqb_eq in E as ->. cbn. unfold CR, LF in *.
    destruct (N.eqb_spec a 10) as [->|_]; [done|].
    by destruct (N.eqb_spec a 13) as [->|_].
  - cbn. by rewrite IH.
Qed.

Lemma contains_universal_newlines s p :
  p <> [] -> CR ∉ p -> LF ∉ p ->
  contains p (universal_newlines s) = contains p s.
Proof.
  intros Hp Hcr Hlf.
  induction s as [|c s IH1 IH2] using two_step_ind; [done|].
  rewrite contains_cons, <- (startswith_universal_newlines (c :: s)) by done.
  cbn [universal_newlines]. destruct (c =? CR)%N eqn:E.
  - rewrite contains_cons. f_equal.
    destruct s as [|d s]; [done|]. destruct (d =? LF)%N eqn:E2; [|done].
    apply N.eqb_eq in E2 as ->. rewrite contains_cons.
    rewrite (IH2 _ _ eq_refl).
    destruct p as [|a p]; [done|]. apply not_elem_of_cons in Hlf as [Hlf _].
    cbn. unfold LF in *. by destruct (N.eqb_spec a 10) as [->|_].
  - rewrite contains_cons. by rewrite IH1.
Qed.

End App.

Section ByLine.
Implicit Types (s t p l : str) (c : char) (ls : list str).

Lemma startswith_break_false c s p :
  is_linebreak c = true -> p <> [] -> line_ok p -> startswith (c :: s) p = false.
Proof.
  intros Hc Hp Hl. destruct p as [|a p]; [done|]. inversion_clear Hl as [|? ? Ha _].
  cbn. destruct (N.eqb_spec a c) as [->|_]; [congruence|done].
Qed.

(** Up to the first line boundary a text and its first line agree. *)
Lemma startswith_first_line s p l ls :
  splitlines s = l :: ls -> line_ok p -> startswith s p = startswith l p.
Proof.
  revert p l ls. induction s as [|c s IH]; intros p l ls Hs Hp; [done|].
  destruct p as [|a p]; [by rewrite !startswith_nil_r|].
  destruct (is_linebreak c) eqn:Hc.
  - rewrite splitlines_cons_break in Hs by done. injection Hs as <- _.
    by apply startswith_break_false.
  - rewrite splitlines_cons_char in Hs by done.
    inversion_clear Hp as [|? ? _ Hp'].
    destruct (splitlines s) as [|l1 ls1] eqn:E.
    + injection Hs as <- _. destruct s as [|d s]; [done|].
      by destruct (splitlines_nonempty (d :: s)).
    + injection Hs as <- _. cbn. f_equal. by eapply IH.
Qed.

(** A text without line boundary occurs in a text exactly when it occurs
    in one of its lines. *)
Lemma contains_by_line p s :
  p <> [] -> line_ok p ->
  contains p s = true <-> exists l, l ∈ splitlines s /\ contains p l = true.
Proof.
  intros Hp Hl. induction s as [|c s IH1 IH2] using two_step_ind.
  { rewrite contains_nil. destruct p; [done|]. split; [done|].
    by intros (l & Hin%elem_of_nil & _). }
  rewrite contains_cons. destruct (is_linebreak c) eqn:Hc.
  - rewrite startswith_break_false, orb_false_l by done.
    rewrite splitlines_cons_break by done.
    assert (forall R, (exists l, l ∈ [] :: R /\ contains p l = true)
                       <-> exists l, l ∈ R /\ contains p l = true) as Hnil.
    { intros R. split; intros (l & Hin & H); [|exists l; split; [by right|done]].
      apply elem_of_cons in Hin as [->|Hin]; [|by exists l].
      rewrite contains_nil in H. by destruct p. }
    rewrite Hnil. destruct (c =? CR)%N; [|done].
    destruct s as [|d s]; [done|]. destruct (d =? LF)%N eqn:Hd; [|done].
    apply N.eqb_eq in Hd as ->. rewrite <- (IH2 _ _ eq_refl).
    rewrite contains_cons, startswith_break_false by done. done.
  - rewrite splitlines_cons_char by done.
    destruct (splitlines s) as [|l0 ls] eqn:E.
    + destruct s as [|d s]; [|by destruct (splitlines_nonempty (d :: s))].
      rewrite contains_nil. split.
      * intros H. exists [c]. split; [by left|].
        by rewrite contains_cons, contains_nil.
      * intros (l & ->%list_elem_of_singleton & H).
        by rewrite contains_cons, contains_nil in H.
    + assert (startswith (c :: s) p = startswith (c :: l0) p) as ->.
      { destruct p as [|a p]; [done|]. cbn. f_equal.
        inversion_clear Hl. by eapply startswith_first_line. }
      rewrite orb_true_iff, IH1. split.
      * intros [H|(l & Hin & H)].
        -- exists (c :: l0). split; [by left|].
           by rewrite contains_cons, H.
        -- apply elem_of_cons in Hin as [->|Hin].
           ++ exists (c :: l0). split; [by left|].
              by rewrite contains_cons, H, orb_true_r.
           ++ exists l. split; [by right|done].
      * intros (l & Hin & H). apply elem_of_cons in Hin as [->|Hin].
        -- rewrite contains_cons in H. apply orb_true_iff in H as [H|H]; [by left|].
           right. exists l0. split; [by left|done].
        -- right. exists l. split; [by right|done].
Qed.

End ByLine.

(** ** The task tools *)

Section Complete.
Implicit Types (s t p l : str) (c : char) (ls : list str).

Lemma complete_loop_find tc i todo lines :
  complete_loop tc i todo lines =
  match list_find (fun l => selects tc l) todo with
  | Some (k, line) => (true, <[i + k := replace line UNCHECKED CHECKED]> lines)
  | None => (false, lines)
  end.
Proof.
  revert i. induction todo as [|l todo IH]; intros i; [done|].
  cbn [complete_loop list_find]. fold (selects tc l).
  destruct (selects tc l) eqn:E; cbn.
  - rewrite decide_True by done. by rewrite Nat.add_0_r.
  - rewrite decide_False by auto. rewrite IH.
    destruct (list_find _ todo) as [[k line]|]; [|done].
    cbn. by rewrite Nat.add_succ_r.
Qed.

(** [TodoCompleteTaskTool.execute] on an existing file, no call failing. *)
Lemma complete_run content hb tr tc :
  TodoCompleteTaskTool_execute tc (World (Files (Some content) hb) [] tr) =
  match list_find (fun l => selects tc l) (splitlines content) with
  | Some (k, line) =>
      (Returns (msg_completed tc),
       World (Files (Some (join [LF]
                (<[k := replace line UNCHECKED CHECKED]> (splitlines content)))) hb)
             [] tr)
  | None =>
      (Returns (msg_not_found tc), World (Files (Some content) hb) [] tr)
  end.
Proof.
  unfold TodoCompleteTaskTool_execute, try_except, bind, path_exists, read_text,
    write_text, fault, get_file, put_file, ret. cbn.
  rewrite splitlines_universal_newlines, complete_loop_find.
  destruct (list_find _ _) as [[k line]|]; done.
Qed.


Lemma CHECKED_line_ok : line_ok CHECKED.
Proof. rewrite CHECKED_chars. repeat constructor. Qed.

Lemma UNCHECKED_line_ok : line_ok UNCHECKED.
Proof. rewrite UNCHECKED_chars. repeat constructor. Qed.

Lemma line_ok_not_elem l c : line_ok l -> is_linebreak c = true -> c ∉ l.
Proof.
  intros Hl Hc. induction Hl as [|d l Hd _ IH]; [apply not_elem_of_nil|].
  apply not_elem_of_cons. split; [congruence|done].
Qed.

Lemma selects_marker tc l : selects tc l = true -> contains UNCHECKED l = true.
Proof. by intros [_ ?]%andb_true_iff. Qed.

Lemma contains_nonempty p l : p <> [] -> contains p l = true -> l <> [].
Proof. intros Hp H ->. rewrite contains_nil in H. by destruct p. Qed.

Lemma marked_lines_ok ls k l :
  Forall line_ok ls -> ls !! k = Some l ->
  Forall line_ok (<[k := replace l UNCHECKED CHECKED]> ls).
Proof.
  intros Hls Hk. apply Forall_insert; [done|].
  apply mark_chars; [apply CHECKED_line_ok|].
  by eapply (Forall_lookup_1 _ _ _ _ Hls).
Qed.

(** Reading back what [TodoCompleteTaskTool.execute] wrote. *)
Lemma reread_marked content k l :
  splitlines content !! k = Some l ->
  splitlines
    (join [LF] (<[k := replace l UNCHECKED CHECKED]> (splitlines content))) =
  reread (<[k := replace l UNCHECKED CHECKED]> (splitlines content)).
Proof.
  intros Hk. apply splitlines_join.
  apply marked_lines_ok; [apply splitlines_lines|done].
Qed.

Lemma find_first tc ls i li :
  ls !! i = Some li -> selects tc li = true ->
  exists k lk, list_find (fun l => selects tc l) ls = Some (k, lk) /\ k <= i.
Proof.
  intros Hi Hs.
  destruct (list_find (fun l => selects tc l) ls) as [[k lk]|] eqn:E.
  - exists k, lk. split; [done|]. apply list_find_Some in E as (_ & _ & Hmin).
    destruct (decide (k <= i)); [done|]. exfalso.
    apply (Hmin i li); [done|lia|]. by rewrite Hs.
  - apply list_find_None in E. rewrite Forall_lookup in E.
    specialize (E i li Hi). rewrite Hs in E. by destruct E.
Qed.


Lemma first_surrogate_None s i : encodable s -> first_surrogate s i = None.
Proof.
  intros H. revert i. induction H as [|c s Hc _ IH]; intros i; [done|].
  cbn [first_surrogate]. by rewrite Hc.
Qed.

Lemma utf8_encode_error_None s : encodable s -> utf8_encode_error s = None.
Proof. intros H. unfold utf8_encode_error. by rewrite first_surrogate_None. Qed.

Lemma utf8_encode_error_Exception s e :
  utf8_encode_error s = Some e -> is_Exception e = true.
Proof.
  unfold utf8_encode_error.
  destruct (first_surrogate s 0) as [[[start c] [|[|n]]]|]; by intros [= <-].
Qed.

Lemma task_line_encodable priority task :
  encodable priority -> encodable task ->
  encodable (lit "- [ ] [" ++ priority ++ lit "] " ++ task ++ [LF]).
Proof.
  intros Hp Ht. unfold encodable.
  rewrite !Forall_app. repeat split; try done; by repeat constructor.
Qed.

(** [TodoAddTaskTool.execute] when no call fails and the line encodes. *)
Lemma add_run f hb tr task priority :
  encodable priority -> encodable task ->
  TodoAddTaskTool_execute task priority (World (Files f hb) [] tr) =
  (Returns (msg_added task priority),
   World (Files (Some (default TODO_HEADER f ++ task_line priority task ++ [LF])) hb)
         [] tr).
Proof.
  intros Hp Ht.
  unfold TodoAddTaskTool_execute, try_except, bind, path_exists, write_text,
    append_text, fault, get_file, put_file, ret, task_line, TODO_HEADER.
  destruct f as [c|]; cbn;
    rewrite (utf8_encode_error_None _ (task_line_encodable _ _ Hp Ht));
    by rewrite <- !app_assoc.
Qed.

Lemma priority_line_ok p :
  p ∈ [lit "LOW"; lit "NORMAL"; lit "HIGH"] -> line_ok p.
Proof.
  intros H. repeat (apply elem_of_cons in H as [->|H]; [by repeat constructor|]).
  by apply elem_of_nil in H.
Qed.

Lemma priority_encodable p :
  p ∈ [lit "LOW"; lit "NORMAL"; lit "HIGH"] -> encodable p.
Proof.
  intros H. repeat (apply elem_of_cons in H as [->|H]; [by repeat constructor|]).
  by apply elem_of_nil in H.
Qed.

Lemma task_line_ok priority task :
  line_ok priority -> line_ok task -> line_ok (task_line priority task).
Proof.
  intros Hp Ht. unfold task_line, line_ok.
  rewrite !Forall_app. repeat split; try done; by repeat constructor.
Qed.

Lemma ends_lines_closed a priority task :
  ends_lines a -> closed_before a (task_line priority task).
Proof.
  unfold ends_lines, closed_before. destruct (list.last a); [|done].
  intros H. split; [done|]. intros _. discriminate.
Qed.

End Complete.

Section Counter.
Implicit Types (s t p l : str) (c : char) (ls : list str).

(** Rewriting one marker changes a line at one position only. *)
Lemma one_marker_one_change l l' pre post k :
  l = pre ++ UNCHECKED ++ post -> l' = pre ++ CHECKED ++ post ->
  k <> length pre + 3 -> l !! k = l' !! k.
Proof.
  intros -> -> Hk. destruct (decide (k < length pre)) as [Hlt|Hge].
  - by rewrite !lookup_app_l.
  - rewrite (lookup_app_r pre (UNCHECKED ++ post)) by lia.
    rewrite (lookup_app_r pre (CHECKED ++ post)) by lia.
    remember (k - length pre) as n eqn:Hn.
    assert (n <> 3) as Hn3 by lia. clear Hge Hn Hk.
    rewrite UNCHECKED_chars, CHECKED_chars.
    do 5 (destruct n as [|n]; [first [congruence|reflexivity]|]). reflexivity.
Qed.

End Counter.

Section FailSoft.
Context {A B : Type}.
Implicit Types (caught : exn -> bool).

Lemma raises_only_ret caught (a : A) : raises_only caught (ret a).
Proof. by intros w e w' [=]. Qed.

Lemma raises_only_raise caught (e : exn) :
  caught e = true -> raises_only caught (raise (A := A) e).
Proof. by intros H w e' w' [= <- _]. Qed.

Lemma raises_only_bind caught (m : M A) (k : A -> M B) :
  raises_only caught m -> (forall a, raises_only caught (k a)) ->
  raises_only caught (bind m k).
Proof.
  intros Hm Hk w e w'. unfold bind.
  destruct (m w) as [[a|e0] w0] eqn:E.
  - apply Hk.
  - intros [= <- <-]. by eapply Hm.
Qed.

Lemma try_except_total caught (body : M A) (handler : exn -> M A) :
  raises_only caught body -> (forall e, total (handler e)) ->
  total (try_except body caught handler).
Proof.
  intros Hb Hh w. unfold try_except.
  destruct (body w) as [[a|e] w0] eqn:E; [by eauto|].
  rewrite (Hb _ _ _ E). apply Hh.
Qed.

End FailSoft.

Lemma total_ret {A} (a : A) : total (ret a).
Proof. intros w. by exists a, w. Qed.

(** A failing file-system call raises [OSError] or [UnicodeError]. *)
Lemma raises_only_fault : raises_only is_Exception fault.
Proof.
  intros w e w'. unfold fault.
  destruct (io_faults w) as [|[[m|m]|] plan]; intros [= <- _]; done.
Qed.

Lemma raises_only_get_file caught p : raises_only caught (get_file p).
Proof. by intros w e w' [=]. Qed.

Lemma raises_only_put_file caught p c : raises_only caught (put_file p c).
Proof. by intros w e w' [=]. Qed.

Lemma raises_only_path_exists p : raises_only is_Exception (path_exists p).
Proof.
  apply raises_only_bind; [apply raises_only_fault|]. intros _.
  apply raises_only_bind; [apply raises_only_get_file|]. intros f.
  apply raises_only_ret.
Qed.

Lemma raises_only_read_text p : raises_only is_Exception (read_text p).
Proof.
  apply raises_only_bind; [apply raises_only_fault|]. intros _.
  apply raises_only_bind; [apply raises_only_get_file|]. intros [c|].
  - apply raises_only_ret.
  - by apply raises_only_raise.
Qed.

Lemma raises_only_write_text p c : raises_only is_Exception (write_text p c).
Proof.
  apply raises_only_bind; [apply raises_only_fault|]. intros _.
  apply raises_only_put_file.
Qed.

Lemma raises_only_append_text p c : raises_only is_Exception (append_text p c).
Proof.
  apply raises_only_bind; [apply raises_only_fault|]. intros _.
  apply raises_only_bind; [apply raises_only_get_file|]. intros f.
  destruct (utf8_encode_error c) as [e|] eqn:E; [|apply raises_only_put_file].
  apply raises_only_bind; [apply raises_only_put_file|]. intros _.
  apply raises_only_raise. by eapply utf8_encode_error_Exception.
Qed.

Create HintDb failsoft.
#[local] Hint Resolve raises_only_ret raises_only_fault raises_only_get_file
  raises_only_put_file raises_only_path_exists raises_only_read_text
  raises_only_write_text raises_only_append_text : failsoft.

Ltac failsoft :=
  repeat first
    [ progress auto with failsoft
    | apply raises_only_bind; [|intros ?]
    | match goal with
      | |- raises_only _ (let _ := _ in _) => cbv zeta
      | |- raises_only _ (if ?b then _ else _) => destruct b
      | |- raises_only _ (match ?x with _ => _ end) => destruct x
      end ].



(** ** The heartbeat service *)

Section Empty.
Implicit Types (s t p l : str) (c : char) (ls : list str).

Lemma skipped_not_actionable t : skipped t = true <-> not_actionable t.
Proof.
  unfold skipped, not_actionable.
  rewrite !orb_true_iff, !bool_decide_eq_true, !startswith_prefix.
  unfold skip_patterns. rewrite !elem_of_cons, elem_of_nil. tauto.
Qed.

Lemma heartbeat_loop_Forall ls :
  heartbeat_loop ls = true <-> Forall (fun line => not_actionable (strip line)) ls.
Proof.
  induction ls as [|l ls IH]; [by split; [constructor|]|].
  cbn [heartbeat_loop]. cbv zeta.
  destruct (skipped (strip l)) eqn:E.
  - rewrite IH. split.
    + intros H. constructor; [by apply skipped_not_actionable|done].
    + by inversion 1.
  - split; [done|]. inversion 1 as [|? ? Hl]; subst.
    apply skipped_not_actionable in Hl. congruence.
Qed.

End Empty.

Section Invoke.

Lemma invoke_returns cb args w r d :
  cb (trace w) args (disk w) = (Returns r, d) ->
  invoke cb args w = (Returns r, after_call w args d).
Proof. unfold invoke. by intros ->. Qed.

Lemma invoke_raises cb args w e d :
  cb (trace w) args (disk w) = (Raises e, d) ->
  invoke cb args w = (Raises e, after_call w args d).
Proof. unfold invoke. by intros ->. Qed.

End Invoke.

Section Pending.
Implicit Types (s t p l : str) (c : char) (ls : list str).

(** [TodoListTasksTool.execute(only_pending=True)] on an existing file,
    no call failing. *)
Lemma list_pending_run content hb tr :
  TodoListTasksTool_execute true (World (Files (Some content) hb) [] tr) =
  (Returns
     (match filter (fun l => contains UNCHECKED l) (splitlines content) with
      | [] => lit "No pending tasks found."
      | pending => lit "Pending tasks:" ++ [LF] ++ join [LF] pending
      end),
   World (Files (Some content) hb) [] tr).
Proof.
  unfold TodoListTasksTool_execute, try_except, bind, path_exists, read_text,
    fault, get_file, ret. cbn. rewrite splitlines_universal_newlines.
  by destruct (filter _ _).
Qed.

Lemma msg_completed_not_msg_not_found tc : msg_completed tc <> msg_not_found tc.
Proof. discriminate. Qed.

(** The star marker does not hold the pending marker. *)
Lemma star_marker_not_pending rest :
  contains UNCHECKED (lit "* [ ] " ++ rest) = contains UNCHECKED rest.
Proof.
  change (lit "* [ ] " ++ rest) with (42 :: 32 :: 91 :: 32 :: 93 :: 32 :: rest)%N.
  rewrite !contains_cons, UNCHECKED_chars. reflexivity.
Qed.

(** The first half of a tick on an existing TODO.md, no call failing,
    with the proactive path configured. *)
Lemma proactive_check_run self cb content hb tr :
  on_heartbeat self = Some cb ->
  proactive_enabled self = true ->
  proactive_chat_id self <> [] ->
  proactive_check self (World (Files (Some content) hb) [] tr) =
  if contains UNCHECKED content
  then proactive_call self cb (proactive_prompt (universal_newlines content))
         (World (Files (Some content) hb) []
            (tr ++ [Logged INFO (lit "Proactive heartbeat: pending tasks in TODO.md")]))
  else (Returns tt, World (Files (Some content) hb) [] tr).
Proof.
  intros Hcb Hen Hid.
  unfold proactive_check, try_except, bind, path_exists, read_text, fault,
    get_file, ret. cbn.
  rewrite contains_universal_newlines;
    [|done|by apply line_ok_not_elem; [apply UNCHECKED_line_ok|] ..].
  destruct (contains UNCHECKED content); [|done].
  rewrite Hcb, Hen, bool_decide_eq_false_2 by done. done.
Qed.


Lemma proactive_call_invokes self cb prompt w :
  exists r w',
    proactive_call self cb prompt w = (r, w') /\
    Called [prompt; proactive_channel self; proactive_chat_id self] ∈ trace w'.
Proof.
  unfold proactive_call, try_except, bind, invoke, log.
  destruct (cb (trace w) _ (disk w)) as [[r|e] d] eqn:E1; cbn.
  - eexists _, _. split; [done|]. cbn. rewrite !elem_of_app, !list_elem_of_singleton. auto.
  - destruct (is_TypeError e); cbn.
    + destruct (cb _ [prompt] d) as [[r|e'] d'] eqn:E2; cbn;
        (eexists _, _; split; [done|]); cbn;
        rewrite !elem_of_app, !list_elem_of_singleton; auto.
    + eexists _, _. split; [done|]. cbn.
      rewrite !elem_of_app, !list_elem_of_singleton. auto.
Qed.

End Pending.

Section Stopped.

Variable upper : str -> str.

(** A resumption leaves the runtime as it is, or changes the task resumed. *)
Lemma resume_park h rt :
  resume upper h rt = rt \/
  exists t w n,
    resume upper h rt = Runtime (service rt) (<[h := t]> (tasks rt)) w n.
Proof.
  unfold resume, loop_test.
  repeat match goal with
         | |- context [match tasks ?r !! ?i with _ => _ end] =>
             destruct (tasks r !! i) as [[[] []]|]
         | |- context [_tick ?u ?s ?w] => destruct (_tick u s w) as [[[]|?] ?]
         | |- context [match sleep_error ?d with _ => _ end] =>
             destruct (sleep_error d)
         | |- context [if ?b then _ else _] => destruct b
         end; cbn; eauto.
Qed.

(** Once [_running] is false no resumption runs a tick, touches the
    world or changes the service. *)
Lemma resume_stopped h rt :
  _running (service rt) = false ->
  service (resume upper h rt) = service rt /\
  env (resume upper h rt) = env rt /\
  ticks (resume upper h rt) = ticks rt.
Proof.
  intros Hr. unfold resume, loop_test. rewrite Hr.
  destruct (tasks rt !! h) as [[[] []]|]; done.
Qed.

Lemma run_stopped schedule rt :
  _running (service rt) = false ->
  service (run upper schedule rt) = service rt /\
  env (run upper schedule rt) = env rt /\
  ticks (run upper schedule rt) = ticks rt.
Proof.
  revert rt. induction schedule as [|h rest IH]; intros rt Hr; [done|].
  cbn [run]. destruct (resume_stopped h rt Hr) as (Hs & He & Ht).
  destruct (IH (resume upper h rt)) as (Hs' & He' & Ht'); [by rewrite Hs|].
  by rewrite Hs', He', Ht'.
Qed.

(** A task that has left the loop stays where it is. *)
Lemma resume_finished h h' rt :
  tasks rt !! h = Some (Task Finished false) ->
  tasks (resume upper h' rt) !! h = Some (Task Finished false).
Proof.
  intros Hh. destruct (decide (h' = h)) as [->|Hne];
    [unfold resume; by rewrite Hh|].
  destruct (resume_park h' rt) as [->|(t & w & n & ->)]; [done|].
  cbn. by rewrite list_lookup_insert_ne.
Qed.

Lemma run_finished schedule h rt :
  tasks rt !! h = Some (Task Finished false) ->
  tasks (run upper schedule rt) !! h = Some (Task Finished false).
Proof.
  revert rt. induction schedule as [|h' rest IH]; intros rt Hh; [done|].
  cbn [run]. by apply IH, resume_finished.
Qed.

End Stopped.

Lemma two_task_file_unique m l :
  splitlines two_task_file !! m = Some l -> selects (lit "a") l = true -> m = 0.
Proof.
  intros Hm Hs. destruct m as [|[|m]]; [reflexivity| |discriminate].
  vm_compute in Hm. injection Hm as <-. vm_compute in Hs. discriminate.
Qed.

(** ** Frames, listings and the loop *)

Section Frame.

Variable R : world -> world -> Prop.
Hypothesis R_refl : forall w, R w w.
Hypothesis R_trans : forall w1 w2 w3, R w1 w2 -> R w2 w3 -> R w1 w3.
Hypothesis R_plan : forall w plan, R w (World (disk w) plan (trace w)).

Lemma keeps_ret {A} (a : A) : keeps R (ret a).
Proof. intros w. apply R_refl. Qed.

Lemma keeps_raise {A} (e : exn) : keeps R (raise (A := A) e).
Proof. intros w. apply R_refl. Qed.

Lemma keeps_bind {A B} (m : M A) (k : A -> M B) :
  keeps R m -> (forall a, keeps R (k a)) -> keeps R (bind m k).
Proof.
  intros Hm Hk w. unfold bind. specialize (Hm w).
  destruct (m w) as [[a|e] w1]; [|done].
  eapply R_trans; [exact Hm|apply Hk].
Qed.

Lemma keeps_try_except {A} (body : M A) caught (handler : exn -> M A) :
  keeps R body -> (forall e, keeps R (handler e)) ->
  keeps R (try_except body caught handler).
Proof.
  intros Hb Hh w. unfold try_except. specialize (Hb w).
  destruct (body w) as [[a|e] w1]; [done|].
  destruct (caught e); [|done]. eapply R_trans; [exact Hb|apply Hh].
Qed.

Lemma keeps_fault : keeps R fault.
Proof.
  intros w. unfold fault.
  destruct (io_faults w) as [|[e|] plan]; [apply R_refl|apply R_plan..].
Qed.

Lemma keeps_get_file p : keeps R (get_file p).
Proof. intros w. apply R_refl. Qed.

Lemma keeps_path_exists p : keeps R (path_exists p).
Proof.
  apply keeps_bind; [apply keeps_fault|]. intros _.
  apply keeps_bind; [apply keeps_get_file|]. intros f. apply keeps_ret.
Qed.

Lemma keeps_read_text p : keeps R (read_text p).
Proof.
  apply keeps_bind; [apply keeps_fault|]. intros _.
  apply keeps_bind; [apply keeps_get_file|].
  intros [c|]; [apply keeps_ret|apply keeps_raise].
Qed.

End Frame.

Lemma same_files_refl w : same_files w w.
Proof. done. Qed.

Lemma same_files_trans w1 w2 w3 :
  same_files w1 w2 -> same_files w2 w3 -> same_files w1 w3.
Proof. intros [? ?] [? ?]. split; congruence. Qed.

Lemma same_but_todo_refl w : same_but_todo w w.
Proof. done. Qed.

Lemma same_but_todo_trans w1 w2 w3 :
  same_but_todo w1 w2 -> same_but_todo w2 w3 -> same_but_todo w1 w3.
Proof. intros [? ?] [? ?]. split; congruence. Qed.

Lemma keeps_put_todo c : keeps same_but_todo (put_file TODO_md c).
Proof. by intros w. Qed.

Lemma keeps_write_todo c : keeps same_but_todo (write_text TODO_md c).
Proof.
  apply keeps_bind; [apply same_but_todo_trans|by apply keeps_fault|].
  intros _. apply keeps_put_todo.
Qed.

Lemma keeps_append_todo c : keeps same_but_todo (append_text TODO_md c).
Proof.
  apply keeps_bind; [apply same_but_todo_trans|by apply keeps_fault|].
  intros _. apply keeps_bind; [apply same_but_todo_trans|by apply keeps_get_file|].
  intros f. destruct (utf8_encode_error c); [|apply keeps_put_todo].
  apply keeps_bind; [apply same_but_todo_trans|apply keeps_put_todo|].
  intros _. apply keeps_raise, same_but_todo_refl.
Qed.

Ltac frame R_refl R_trans :=
  repeat first
    [ apply keeps_ret; exact R_refl
    | apply keeps_raise; exact R_refl
    | apply keeps_path_exists; [exact R_refl|exact R_trans|done]
    | apply keeps_read_text; [exact R_refl|exact R_trans|done]
    | apply keeps_write_todo
    | apply keeps_append_todo
    | apply keeps_try_except; [exact R_trans| |intros ?]
    | apply keeps_bind; [exact R_trans| |intros ?]
    | match goal with
      | |- keeps _ (let _ := _ in _) => cbv zeta
      | |- keeps _ (if ?b then _ else _) => destruct b
      | |- keeps _ (match ?x with _ => _ end) => destruct x
      end ].

Section AddList.
Implicit Types (s t p l : str) (c : char) (ls : list str).

Lemma contains_app_r p a s : contains p s = true -> contains p (a ++ s) = true.
Proof.
  intros (x & y & ->)%contains_infix. apply contains_infix.
  exists (a ++ x), y. by rewrite <- app_assoc.
Qed.

Lemma contains_join p sep ls l :
  l ∈ ls -> contains p l = true -> contains p (join sep ls) = true.
Proof.
  intros Hin (x & y & ->)%contains_infix. apply contains_infix.
  induction ls as [|l0 ls IH]; [by apply elem_of_nil in Hin|].
  apply elem_of_cons in Hin as [<-|Hin].
  - destruct ls as [|l1 ls]; [exists x, y; reflexivity|].
    exists x, (y ++ sep ++ join sep (l1 :: ls)).
    change (join sep ((x ++ p ++ y) :: l1 :: ls))
      with ((x ++ p ++ y) ++ sep ++ join sep (l1 :: ls)).
    by rewrite <- !app_assoc.
  - destruct (IH Hin) as (a & b & E).
    destruct ls as [|l1 ls]; [by apply elem_of_nil in Hin|].
    exists (l0 ++ sep ++ a), b.
    change (join sep (l0 :: l1 :: ls)) with (l0 ++ sep ++ join sep (l1 :: ls)).
    rewrite E. by rewrite <- !app_assoc.
Qed.

Lemma task_line_pending pre priority task :
  contains UNCHECKED (pre ++ task_line priority task) = true.
Proof.
  apply contains_infix. exists pre, (lit " [" ++ priority ++ lit "] " ++ task).
  reflexivity.
Qed.

Lemma task_line_nonempty priority task : task_line priority task <> [].
Proof. discriminate. Qed.

(** Whatever the text before, a terminated line appended to it ends up
    as the end of the last line. *)
Lemma splitlines_append_any a l :
  line_ok l -> l <> [] ->
  exists ls pre, splitlines (a ++ l ++ [LF]) = ls ++ [pre ++ l].
Proof.
  intros Hl Hne. induction a as [|c a IH1 IH2] using two_step_ind.
  { exists [], []. cbn [app]. rewrite splitlines_line_LF by done. done. }
  cbn [app]. destruct (is_linebreak c) eqn:Hc.
  - rewrite splitlines_cons_break by done.
    destruct IH1 as (ls & pre & E).
    destruct (c =? CR)%N; [|exists ([] :: ls), pre; by rewrite E].
    destruct a as [|d a].
    + cbn [app] in *. destruct l as [|x l]; [done|]. cbn [app].
      inversion_clear Hl as [|? ? Hx _].
      destruct (N.eqb_spec x LF) as [->|_]; [done|].
      exists ([] :: ls), pre. cbn [app]. by rewrite <- E.
    + cbn [app]. destruct (d =? LF)%N.
      * destruct (IH2 _ _ eq_refl) as (ls2 & pre2 & E2).
        exists ([] :: ls2), pre2. by rewrite E2.
      * exists ([] :: ls), pre. cbn [app] in E. by rewrite E.
  - rewrite splitlines_cons_char by done.
    destruct IH1 as (ls & pre & ->).
    destruct ls as [|l0 ls]; [by exists [], (c :: pre)|].
    by exists ((c :: l0) :: ls), pre.
Qed.

Lemma pending_of_app ls1 ls2 : pending_of (ls1 ++ ls2) = pending_of ls1 ++ pending_of ls2.
Proof. unfold pending_of. apply list.filter_app. Qed.

Lemma pending_of_task_lines ts : pending_of (map task_line_of ts) = map task_line_of ts.
Proof.
  induction ts as [|t ts IH]; [done|]. cbn [map]. unfold pending_of in *.
  rewrite list.filter_cons_True, IH; [done|].
  apply Is_true_true, (task_line_pending []).
Qed.

(** [TodoListTasksTool.execute(only_pending=False)] on an existing file,
    no call failing. *)
Lemma list_all_run content hb tr :
  TodoListTasksTool_execute false (World (Files (Some content) hb) [] tr) =
  (Returns
     (match splitlines content with
      | [] => lit "TODO.md is empty."
      | ls => lit "All tasks:" ++ [LF] ++ join [LF] ls
      end),
   World (Files (Some content) hb) [] tr).
Proof.
  unfold TodoListTasksTool_execute, try_except, bind, path_exists, read_text,
    fault, get_file, ret. cbn. rewrite splitlines_universal_newlines.
  by destruct (splitlines _).
Qed.

Lemma written_cons task priority ts :
  written ((task, priority) :: ts) = task_line priority task ++ [LF] ++ written ts.
Proof. unfold written. cbn [map concat]. by rewrite <- app_assoc. Qed.

(** What [add_tasks] appends. *)
Lemma add_tasks_run ts s hb tr :
  Forall (fun x : str * str => plain (fst x) /\ plain (snd x)) ts ->
  add_tasks ts (World (Files (Some s) hb) [] tr) =
  (Returns tt, World (Files (Some (s ++ written ts)) hb) [] tr).
Proof.
  intros Hts. revert s.
  induction Hts as [|[task priority] ts [[_ Ht] [_ Hp]] _ IH]; intros s.
  { cbn. by rewrite app_nil_r. }
  cbn [add_tasks]. unfold bind, Skills.add_task. cbn [execute TodoAddTaskTool].
  rewrite add_run by done. cbn [default]. rewrite IH, written_cons.
  by rewrite <- !app_assoc.
Qed.

Lemma ends_lines_app_LF a l : ends_lines (a ++ l ++ [LF]).
Proof.
  unfold ends_lines. rewrite app_assoc, last_snoc. reflexivity.
Qed.

Lemma splitlines_written ts s :
  ends_lines s ->
  Forall (fun x : str * str => plain (fst x) /\ plain (snd x)) ts ->
  splitlines (s ++ written ts) = splitlines s ++ map task_line_of ts.
Proof.
  intros Hs Hts. revert s Hs.
  induction Hts as [|[task priority] ts [[Ht _] [Hp _]] _ IH]; intros s Hs.
  { cbn. by rewrite !app_nil_r. }
  rewrite written_cons. cbn [map fst snd] in *.
  replace (s ++ task_line priority task ++ [LF] ++ written ts)
    with ((s ++ task_line priority task ++ [LF]) ++ written ts)
    by (by rewrite <- !app_assoc).
  rewrite IH by apply ends_lines_app_LF.
  rewrite splitlines_append_line;
    [|by apply ends_lines_closed|by apply task_line_ok|apply task_line_nonempty].
  by rewrite <- app_assoc.
Qed.

End AddList.

Section Removal.
Implicit Types (s t p l : str) (c : char) (ls : list str).

Lemma pending_of_reread ls : pending_of (reread ls) = pending_of ls.
Proof.
  unfold reread. destruct (list.last ls) as [[|]|] eqn:E; try done.
  destruct ls as [|x ls _] using rev_ind; [done|].
  rewrite last_snoc in E. injection E as ->.
  rewrite removelast_last, pending_of_app. unfold pending_of at 3.
  rewrite list.filter_cons_False, filter_nil, app_nil_r; [done|].
  by intros H%Is_true_true.
Qed.

Lemma pending_of_marked l ls :
  pending_of (replace l UNCHECKED CHECKED :: ls) = pending_of ls.
Proof.
  unfold pending_of. rewrite list.filter_cons_False; [done|].
  intros H%Is_true_true. by rewrite mark_no_marker in H.
Qed.

Lemma pending_of_selected tc l ls :
  selects tc l = true -> pending_of (l :: ls) = l :: pending_of ls.
Proof.
  intros H%selects_marker. unfold pending_of.
  by rewrite list.filter_cons_True by by apply Is_true_true.
Qed.

Lemma find_after tc before l after :
  Forall (fun l' => selects tc l' = false) before -> selects tc l = true ->
  list_find (fun l => selects tc l) (before ++ l :: after) =
  Some (length before, l).
Proof.
  intros Hb Hl. apply list_find_Some. split; [by apply list_lookup_middle|].
  split; [by apply Is_true_true|]. intros j y Hj Hlt.
  rewrite lookup_app_l in Hj by done.
  rewrite Forall_lookup in Hb. rewrite (Hb j y Hj). by intros [].
Qed.

Lemma list_pending_listing content hb tr :
  Skills.list_tasks true (World (Files (Some content) hb) [] tr) =
  (Returns (pending_listing (pending_of (splitlines content))),
   World (Files (Some content) hb) [] tr).
Proof.
  unfold Skills.list_tasks. cbn [execute TodoListTasksTool].
  rewrite list_pending_run. unfold pending_listing, pending_of.
  by destruct (filter _ _).
Qed.

End Removal.

Section Quiet.

Variable upper : str -> str.
Variable self : HeartbeatService.

Lemma UNCHECKED_no_newline : UNCHECKED <> [] /\ (CR ∉ UNCHECKED) /\ (LF ∉ UNCHECKED).
Proof.
  split; [done|]. split; by apply line_ok_not_elem; [apply UNCHECKED_line_ok|].
Qed.

Lemma marker_read c : contains UNCHECKED (universal_newlines c) = contains UNCHECKED c.
Proof.
  destruct UNCHECKED_no_newline as (? & ? & ?). by apply contains_universal_newlines.
Qed.

(** The scan of TODO.md when the proactive call is not to be made. *)
Lemma proactive_check_skips w :
  no_proactive_call self (default [] (todo_md (disk w))) ->
  exists r plan,
    proactive_check self w = (r, World (disk w) plan (trace w)) /\
    (r = Returns tt \/ exists e, r = Raises e).
Proof.
  destruct w as [[t hb] plan tr]. cbn [disk todo_md trace]. intros H.
  unfold proactive_check, try_except, bind, path_exists, read_text, fault,
    get_file, ret, raise.
  destruct t as [c|]; destruct plan as [|[[m1|m1]|] [|[[m2|m2]|] plan]];
    cbn; rewrite ?marker_read; eauto 6;
    unfold no_proactive_call, default, from_option, id in H;
    (destruct (contains UNCHECKED c) eqn:Hc; [|eauto 6]);
    (destruct (on_heartbeat self) as [cb|] eqn:Hcb; [|eauto 6]);
    (destruct (proactive_enabled self) eqn:Hen; [|cbn; eauto 6]);
    (destruct (decide (proactive_chat_id self = [])) as [Hid|Hid];
      [rewrite bool_decide_eq_true_2 by done; cbn; eauto 6|]);
    destruct H as [?|[?|[?|?]]]; congruence.
Qed.

(** The check of HEARTBEAT.md when there is nothing to act on. *)
Lemma instructions_check_skips w :
  _is_heartbeat_empty (universal_newlines <$> heartbeat_md (disk w)) = true ->
  exists plan,
    instructions_check upper self w =
      (Returns tt, World (disk w) plan (trace w ++ [LOG_NO_TASKS]))
    \/ exists e, instructions_check upper self w =
                   (Raises e, World (disk w) plan (trace w)).
Proof.
  destruct w as [[t hb] plan tr]. cbn [disk heartbeat_md trace]. intros H.
  unfold instructions_check, _read_heartbeat_file, try_except, bind,
    path_exists, read_text, fault, get_file, ret, raise, log, LOG_NO_TASKS.
  destruct hb as [c|]; destruct plan as [|[[m1|m1]|] [|[[m2|m2]|] plan]];
    cbn in *; rewrite ?H; cbn; eauto.
Qed.

End Quiet.

(** The scan of TODO.md when the proactive call is not to be made and no
    call fails. *)
Lemma proactive_check_skips_run self todo hb tr :
  no_proactive_call self (default [] todo) ->
  proactive_check self (World (Files todo hb) [] tr) =
  (Returns tt, World (Files todo hb) [] tr).
Proof.
  intros H.
  destruct (proactive_check_skips self (World (Files todo hb) [] tr) H)
    as (r & plan & E & _).
  revert E.
  unfold proactive_check, try_except, bind, path_exists, read_text, fault,
    get_file, ret, raise.
  destruct todo as [c|]; cbn; [|done].
  unfold no_proactive_call, default, from_option, id in H.
  rewrite marker_read.
  destruct (contains UNCHECKED c) eqn:Hc; [|done].
  destruct (on_heartbeat self) as [cb|] eqn:Hcb; [|done].
  destruct (proactive_enabled self) eqn:Hen; [|done].
  destruct (decide (proactive_chat_id self = [])) as [Hid|Hid];
    [by rewrite bool_decide_eq_true_2 by done|].
  destruct H as [?|[?|[?|?]]]; congruence.
Qed.

Section Token.
Implicit Types (s t p l : str) (c : char).

Lemma replace_underscore s : replace s (lit "_") [] = without_underscores s.
Proof.
  unfold replace. change (lit "_") with [95%N].
  induction s as [|c s IH]; [done|].
  cbn [replace_from startswith length Nat.sub]. unfold without_underscores in *.
  rewrite startswith_nil_r, andb_true_r.
  destruct (N.eqb_spec 95 c) as [<-|Hne].
  - rewrite list.filter_cons_False by (by intros ?). exact IH.
  - rewrite list.filter_cons_True by congruence. by rewrite <- IH.
Qed.

Lemma without_underscores_app s t :
  without_underscores (s ++ t) = without_underscores s ++ without_underscores t.
Proof. apply list.filter_app. Qed.

Lemma without_underscores_split s a b :
  without_underscores s = a ++ b ->
  exists s1 s2, s = s1 ++ s2 /\ without_underscores s1 = a
                /\ without_underscores s2 = b.
Proof.
  revert a. induction s as [|c s IH]; intros a H.
  { symmetry in H. apply app_eq_nil in H as [-> ->]. by exists [], []. }
  unfold without_underscores in H. rewrite list.filter_cons in H.
  fold (without_underscores s) in H.
  destruct (decide (c <> 95%N)) as [Hc|Hc].
  - destruct a as [|x a].
    + exists [], (c :: s). repeat split. cbn [app] in H. rewrite <- H.
      unfold without_underscores. by rewrite list.filter_cons_True.
    + cbn [app] in H. injection H as <- H.
      destruct (IH a H) as (s1 & s2 & -> & H1 & H2).
      exists (c :: s1), s2. repeat split; [|done].
      unfold without_underscores. rewrite list.filter_cons_True by done.
      by rewrite <- H1.
  - destruct (IH a H) as (s1 & s2 & -> & H1 & H2).
    exists (c :: s1), s2. repeat split; [|done].
    unfold without_underscores. by rewrite list.filter_cons_False.
Qed.

End Token.

Section Survive.

Variable upper : str -> str.

Lemma raises_only_log caught lv msg : raises_only caught (log lv msg).
Proof. by intros w e w' [=]. Qed.

Lemma raises_only_invoke cb args :
  raises_Exception_only cb -> raises_only is_Exception (invoke cb args).
Proof.
  intros Hcb w e w'. unfold invoke.
  destruct (cb (trace w) args (disk w)) as [[r|e0] d] eqn:E; intros [= <- _].
  by eapply Hcb.
Qed.

Lemma raises_only_try_except {A} caught caught' (body : M A) handler :
  raises_only caught body -> (forall e, raises_only caught (handler e)) ->
  raises_only caught (try_except body caught' handler).
Proof.
  intros Hb Hh w e w'. unfold try_except.
  destruct (body w) as [[a|e0] w0] eqn:E; [done|].
  destruct (caught' e0); [apply Hh|]. intros [= <- <-]. by eapply Hb.
Qed.

Lemma failing_legacy_agent_Exceptions : raises_Exception_only failing_legacy_agent.
Proof.
  intros tr args d e d'. unfold failing_legacy_agent.
  destruct args as [|a [|b l]]; by intros [= <- _].
Qed.

(** With such a callback a tick raises nothing outside [Exception]. *)
Lemma tick_raises_only self :
  (forall cb, on_heartbeat self = Some cb -> raises_Exception_only cb) ->
  raises_only is_Exception (_tick upper self).
Proof.
  intros Hcb. unfold _tick, proactive_check, instructions_check,
    _read_heartbeat_file, proactive_call.
  destruct (on_heartbeat self) as [cb|]; [specialize (Hcb cb eq_refl)|];
    repeat first
      [ apply raises_only_path_exists | apply raises_only_read_text
      | apply raises_only_log | apply raises_only_ret
      | by apply raises_only_invoke | by apply raises_only_raise
      | apply raises_only_bind; [|intros ?]
      | apply raises_only_try_except; [|intros ?]
      | match goal with
        | |- raises_only _ (if ?b then _ else _) => destruct b
        | |- raises_only _ (match ?x with _ => _ end) => destruct x
        end ].
Qed.

Lemma sleep_error_None delay :
  (delay < FLOAT_LIMIT)%Z -> sleep_error delay = None.
Proof.
  intros H. unfold sleep_error.
  destruct (Z.leb_spec FLOAT_LIMIT delay); [lia|done].
Qed.

Lemma sleep_error_Some delay :
  (FLOAT_LIMIT <= delay)%Z ->
  sleep_error delay =
  Some (Exn OverflowError (lit "int too large to convert to float")).
Proof.
  intros H. unfold sleep_error.
  destruct (Z.leb_spec FLOAT_LIMIT delay); [done|lia].
Qed.

(** No resumption changes the service. *)
Lemma resume_service h rt : service (resume upper h rt) = service rt.
Proof. by destruct (resume_park upper h rt) as [->|(st & w & n & ->)]. Qed.

(** A resumption changes no task but the one resumed. *)
Lemma resume_other h h' rt :
  h <> h' -> tasks (resume upper h' rt) !! h = tasks rt !! h.
Proof.
  intros Hne. destruct (resume_park upper h' rt) as [->|(st & w & n & ->)];
    [done|]. cbn. by rewrite list_lookup_insert_ne.
Qed.

(** A sleeping loop of a running service ticks when resumed. *)
Lemma resume_ticks h rt :
  tasks rt !! h = Some (Task Sleeping false) ->
  _running (service rt) = true ->
  ticks (resume upper h rt) = S (ticks rt).
Proof.
  intros Hh Hr. unfold resume, loop_test. rewrite Hh, Hr.
  destruct (_tick upper (service rt) (env rt)) as [[[]|e] w];
    repeat match goal with
           | |- context [match sleep_error ?d with _ => _ end] =>
               destruct (sleep_error d)
           | |- context [if ?b then _ else _] => destruct b
           end; done.
Qed.

Lemma resume_survives h rt :
  tasks rt !! h = Some (Task Sleeping false) ->
  _running (service rt) = true ->
  (interval_s (service rt) < FLOAT_LIMIT)%Z ->
  (forall cb, on_heartbeat (service rt) = Some cb -> raises_Exception_only cb) ->
  tasks (resume upper h rt) !! h = Some (Task Sleeping false).
Proof.
  intros Hh Hr Hi%sleep_error_None Hcb. unfold resume, loop_test.
  rewrite Hh, Hr, Hi.
  assert (h < length (tasks rt)) as Hlt by (by eapply lookup_lt_Some).
  pose proof (tick_raises_only (service rt) Hcb (env rt)) as Hraise.
  destruct (_tick upper (service rt) (env rt)) as [[[]|e] w].
  - cbn. by apply list_lookup_insert_eq.
  - specialize (Hraise e w eq_refl).
    assert (is_CancelledError e = false) as ->.
    { unfold is_Exception, is_CancelledError in *. by destruct (exn_class e). }
    rewrite Hraise. cbn. by apply list_lookup_insert_eq.
Qed.

(** The first resumption of a new task of a running service. *)
Lemma resume_created h rt :
  tasks rt !! h = Some (Task Created false) ->
  _running (service rt) = true ->
  (interval_s (service rt) < FLOAT_LIMIT)%Z ->
  resume upper h rt =
  Runtime (service rt) (<[h := Task Sleeping false]> (tasks rt)) (env rt) (ticks rt).
Proof.
  intros Hh Hr Hi%sleep_error_None. unfold resume, loop_test.
  by rewrite Hh, Hr, Hi.
Qed.

(** Once [_running] is false a resumed task ends, and a task that has
    ended stays as it is. *)
Lemma resume_ends h rt t :
  _running (service rt) = false -> tasks rt !! h = Some t ->
  exists t', tasks (resume upper h rt) !! h = Some t' /\ is_done t' = true.
Proof.
  intros Hr Hh. unfold resume, loop_test. rewrite Hh, Hr.
  assert (h < length (tasks rt)) as Hlt by (by eapply lookup_lt_Some).
  destruct t as [[] []]; cbn;
    rewrite ?list_lookup_insert_eq by done; rewrite ?Hh; by eexists.
Qed.

Lemma resume_done h h' rt t :
  tasks rt !! h = Some t -> is_done t = true ->
  tasks (resume upper h' rt) !! h = Some t.
Proof.
  intros Hh Hd. destruct (decide (h = h')) as [<-|Hne];
    [|by rewrite resume_other].
  unfold resume. rewrite Hh. by destruct t as [[] []].
Qed.

Lemma run_done schedule h rt t :
  tasks rt !! h = Some t -> is_done t = true ->
  tasks (run upper schedule rt) !! h = Some t.
Proof.
  revert rt. induction schedule as [|h' rest IH]; intros rt Hh Hd; [done|].
  cbn [run]. apply IH; [|done]. by apply resume_done.
Qed.

Lemma run_ends schedule h rt t :
  _running (service rt) = false -> tasks rt !! h = Some t -> h ∈ schedule ->
  exists t', tasks (run upper schedule rt) !! h = Some t' /\ is_done t' = true.
Proof.
  revert rt t. induction schedule as [|h' rest IH]; intros rt t Hr Hh Hin.
  { by apply elem_of_nil in Hin. }
  cbn [run]. destruct (decide (h = h')) as [<-|Hne].
  - destruct (resume_ends h rt t Hr Hh) as (t' & Ht' & Hd).
    exists t'. split; [|done]. by apply run_done.
  - apply elem_of_cons in Hin as [?|Hin]; [done|].
    apply (IH _ t); [by rewrite resume_service|by rewrite resume_other|done].
Qed.

(** A loop whose sleep raises turns without sleeping or ticking: a
    task not yet run, or one that turns already, turns once and logs. *)
Lemma resume_spins h rt st :
  tasks rt !! h = Some (Task st false) -> st = Created \/ st = Spinning ->
  _running (service rt) = true ->
  (FLOAT_LIMIT <= interval_s (service rt))%Z ->
  resume upper h rt =
  Runtime (service rt) (<[h := Task Spinning false]> (tasks rt))
    (snd (log ERROR (lit "Heartbeat error: int too large to convert to float")
            (env rt)))
    (ticks rt).
Proof.
  intros Hh Hst Hr Hi%sleep_error_Some. unfold resume, loop_test.
  rewrite Hh, Hr, Hi. by destruct Hst as [-> | ->].
Qed.

End Survive.

(** [start] on an enabled service. *)
Lemma start_enabled rt :
  enabled (service rt) = true ->
  exists r w,
    start rt =
    (r,
     Runtime (set_task (Some (length (tasks rt))) (set_running true (service rt)))
       (tasks rt ++ [Task Created false]) w (ticks rt)) /\
    disk w = disk (env rt) /\
    (r = Returns tt \/ exists e, r = Raises e /\ exn_class e = ValueError).
Proof.
  intros Hen. unfold start, str_of_int. rewrite Hen. cbn.
  match goal with |- context [if ?b then _ else _] => destruct b end;
    cbn; eexists _, _; (split; [reflexivity|]); eauto.
Qed.

(** A task found asleep when the interval has become too large for a
    float: it ticks once more, and then turns in the loop. *)
Example sleeping_task_huge_interval :
  tasks (resume (fun s => s) 0
           (Runtime (set_running true (service huge_interval_service))
              [Task Sleeping false] (World (Files None None) [] []) 0))
  = [Task Spinning false].
Proof. by vm_compute. Qed.

(** * The operations on examples *)

Example heading_only_is_empty :
  _is_heartbeat_empty (Some (lit "# Notes" ++ [LF])) = true.
Proof. reflexivity. Qed.

Example bare_checkbox_is_empty :
  _is_heartbeat_empty (Some (lit "- [ ]" ++ [LF])) = true.
Proof. reflexivity. Qed.

Example task_is_not_empty :
  _is_heartbeat_empty (Some (lit "- [ ] buy milk" ++ [LF])) = false.
Proof. reflexivity. Qed.

Example absent_is_empty :
  _is_heartbeat_empty None = true /\ _is_heartbeat_empty (Some []) = true.
Proof. split; reflexivity. Qed.

Example list_all_after_complete :
  exists w1 w2,
    TodoAddTaskTool_execute (lit "a") (lit "HIGH") (World (Files None None) [] [])
      = (Returns (msg_added (lit "a") (lit "HIGH")), w1) /\
    TodoCompleteTaskTool_execute (lit "a") w1
      = (Returns (msg_completed (lit "a")), w2) /\
    TodoListTasksTool_execute false w2
      = (Returns (lit "All tasks:" ++ [LF] ++ lit "# TODO" ++ [LF; LF]
                  ++ lit "- [x] [HIGH] a"), w2) /\
    TodoListTasksTool_execute true w2
      = (Returns (lit "No pending tasks found."), w2).
Proof. do 2 eexists. repeat split; vm_compute; reflexivity. Qed.

Example list_tasks_reports_io_error :
  TodoListTasksTool_execute true
    (World (Files (Some []) None) [None; Some (Err_OS (lit "boom"))] []) =
  (Returns (lit "Error listing tasks: boom"), World (Files (Some []) None) [] []).
Proof. reflexivity. Qed.

Example interrupt_is_not_caught :
  try_except (raise (Exn KeyboardInterrupt [])) is_Exception
    (fun e => ret (exn_str e)) (World (Files None None) [] []) =
  (Raises (Exn KeyboardInterrupt []), World (Files None None) [] []).
Proof. reflexivity. Qed.

Example no_tick_callback_without_instructions :
  _tick (fun s => s) (service_of (Some channel_aware_agent) false [])
    (World (Files None None) [] []) =
  (Returns tt,
   World (Files None None) []
     [Logged DEBUG (lit "Heartbeat: no tasks (HEARTBEAT.md empty)")]).
Proof. reflexivity. Qed.

Example start_then_first_step :
  let rt0 := Runtime (service_of None false []) [] (World (Files None None) [] []) 0 in
  let rt1 := snd (start rt0) in
  _task (service rt1) = Some 0 /\
  tasks (resume (fun s => s) 0 rt1) = [Task Sleeping false] /\
  trace (env rt1) = [Logged INFO (lit "Heartbeat started (every 1800s)")].
Proof. repeat split; reflexivity. Qed.

Example proactive_retry_with_one_argument :
  let prompt := proactive_prompt (lit "- [ ] a" ++ [LF]) in
  _tick (fun s => s) (service_of (Some prompt_only_agent) true (lit "42"))
    busy_workspace =
  (Returns tt,
   World (disk busy_workspace) []
     [Logged INFO (lit "Proactive heartbeat: pending tasks in TODO.md");
      Called [prompt; lit "qq"; lit "42"];
      Called [prompt];
      Logged INFO (lit "Proactive heartbeat completed (legacy): HEARTBEAT_OK");
      Logged INFO (lit "Heartbeat: checking for tasks...");
      Called [HEARTBEAT_PROMPT];
      Logged INFO (lit "Heartbeat: OK (no action needed)")]).
Proof. reflexivity. Qed.

(** * Theorems *)

(** Claim C1, as amended.  When exactly one pending line holds
    [task_content], the file written back is the lines joined by "\n"
    with every occurrence of "- [ ]" on that line replaced by "- [x]".
    No marker is left on the line, and the text between the markers is
    kept; when the marker occurs once on the line, only it is rewritten
    and the text around it is kept.  Every other line is unchanged, and
    is read back unchanged (an empty last line apart, which the joining
    drops). *)
Theorem complete_task_unique_line
    (content : str) hb tr (tc : str) (i : nat) (li : str) :
  let lines := splitlines content in
  lines !! i = Some li -> selects tc li = true ->
  (forall m l, lines !! m = Some l -> selects tc l = true -> m = i) ->
  let li' := replace li UNCHECKED CHECKED in
  let lines' := <[i := li']> lines in
  TodoCompleteTaskTool_execute tc (World (Files (Some content) hb) [] tr) =
    (Returns (msg_completed tc),
     World (Files (Some (join [LF] lines')) hb) [] tr) /\
  lines' !! i = Some li' /\
  contains UNCHECKED li' = false /\
  (exists g gs, li = join UNCHECKED (g :: gs) /\ li' = join CHECKED (g :: gs)) /\
  (forall pre post, occurs_once UNCHECKED li pre post ->
     li' = pre ++ CHECKED ++ post) /\
  length lines' = length lines /\
  (forall m, m <> i -> lines' !! m = lines !! m) /\
  (forall m l, lines' !! m = Some l -> l <> [] \/ S m < length lines' ->
     splitlines (universal_newlines (join [LF] lines')) !! m = Some l).
Proof.
  intros lines Hi Hsi Huniq li' lines'.
  destruct (find_first tc lines i li Hi Hsi) as (k & lk & Hfind & Hki).
  pose proof Hfind as (Hk & Hsk & _)%list_find_Some.
  assert (k = i) as -> by (apply (Huniq k lk); [done|by destruct (selects tc lk)]).
  assert (lk = li) as -> by congruence.
  split; [|split; [|split; [|split; [|split; [|split; [|split]]]]]].
  - rewrite complete_run. fold lines. by rewrite Hfind.
  - apply list_lookup_insert_eq. by eapply lookup_lt_Some.
  - apply mark_no_marker.
  - apply mark_segments.
  - intros pre post. apply mark_once.
  - apply length_insert.
  - intros m Hm. by apply list_lookup_insert_ne.
  - intros m l Hm Hl. unfold lines', li', lines.
    rewrite splitlines_universal_newlines, reread_marked by done.
    by apply reread_lookup.
Qed.

(** The amended C1 on a file of two tasks. *)
Lemma complete_task_unique_line_witness :
  TodoCompleteTaskTool_execute (lit "a")
    (World (Files (Some two_task_file) None) [] []) =
  (Returns (msg_completed (lit "a")),
   World (Files (Some (lit "- [x] a" ++ [LF] ++ lit "- [ ] b")) None) [] []).
Proof.
  exact (proj1 (complete_task_unique_line two_task_file None [] (lit "a") 0
                  (lit "- [ ] a") eq_refl eq_refl two_task_file_unique)).
Defined.

(** Claim C1 as stated fails.  On a line whose description mentions the
    marker, both occurrences are rewritten: the text of the line besides
    its marker is not preserved, and no rewriting of a single marker
    yields the line that is written. *)
Lemma complete_task_rewrites_description :
  let content := marker_task_file in
  let tc := lit "explain" in
  let li := lit "- [ ] [NORMAL] explain the - [ ] marker" in
  let li' := lit "- [x] [NORMAL] explain the - [x] marker" in
  splitlines content !! 2 = Some li /\
  selects tc li = true /\
  (forall m l, splitlines content !! m = Some l -> selects tc l = true -> m = 2) /\
  exists written,
    TodoCompleteTaskTool_execute tc (World (Files (Some content) None) [] []) =
      (Returns (msg_completed tc), World (Files (Some written) None) [] []) /\
    splitlines (universal_newlines written) !! 2 = Some li' /\
    ~ exists pre post,
        li = pre ++ UNCHECKED ++ post /\ li' = pre ++ CHECKED ++ post.
Proof.
  intros content tc li li'. split; [reflexivity|]. split; [reflexivity|]. split.
  { intros m l Hm Hs. destruct m as [|[|[|m]]]; vm_compute in Hm;
      [injection Hm as <-; vm_compute in Hs; discriminate ..|reflexivity|discriminate]. }
  eexists. split; [vm_compute; reflexivity|]. split; [reflexivity|].
  intros (pre & post & H1 & H2).
  pose proof (one_marker_one_change _ _ pre post 3 H1 H2) as E3.
  pose proof (one_marker_one_change _ _ pre post 30 H1 H2) as E30.
  destruct (decide (length pre = 0)) as [Hp|Hp].
  - specialize (E30 ltac:(lia)). vm_compute in E30. discriminate.
  - specialize (E3 ltac:(lia)). vm_compute in E3. discriminate.
Qed.

(** Claim C2 does not hold of the code.  When the three-argument proactive
    call raises an exception other than TypeError, [_tick] ends with that
    exception before HEARTBEAT.md is looked at: nothing of the
    instructions check happens although the file calls for action, and
    [_run_loop] records the tick as a heartbeat error.  The same tick
    without a pending task does reach the instructions check. *)
Theorem proactive_failure_aborts_tick (upper : str -> str) :
  let self := service_of (Some failing_notifier) true (lit "42") in
  let prompt := proactive_prompt (lit "- [ ] a" ++ [LF]) in
  exists w',
    _tick upper self busy_workspace =
      (Raises (Exn RuntimeError (lit "send failed")), w') /\
    trace w' =
      [Logged INFO (lit "Proactive heartbeat: pending tasks in TODO.md");
       Called [prompt; lit "qq"; lit "42"]] /\
    reached_instructions_check (trace w') = false /\
    (* [_run_loop] records the tick as failed and goes back to sleep *)
    resume upper 0 (Runtime self [Task Sleeping false] busy_workspace 0) =
      Runtime self [Task Sleeping false]
        (World (disk w') (io_faults w')
           (trace w' ++ [Logged ERROR (lit "Heartbeat error: send failed")]))
        1 /\
    (* the same when it is the one-argument retry that fails *)
    (exists w2,
       _tick upper (service_of (Some failing_legacy_agent) true (lit "42"))
         busy_workspace
         = (Raises (Exn RuntimeError (lit "agent crashed")), w2) /\
       trace w2 =
         [Logged INFO (lit "Proactive heartbeat: pending tasks in TODO.md");
          Called [prompt; lit "qq"; lit "42"]; Called [prompt]] /\
       reached_instructions_check (trace w2) = false) /\
    (* without the pending task the same tick does reach the second half *)
    (exists w'',
       _tick upper self (World (Files None (heartbeat_md (disk busy_workspace))) [] [])
         = (Returns tt, w'') /\
       reached_instructions_check (trace w'') = true /\
       Called [HEARTBEAT_PROMPT] ∈ trace w'').
Proof.
  intros self prompt. eexists. split; [reflexivity|]. split; [reflexivity|].
  split; [reflexivity|]. split; [reflexivity|].
  split; [eexists; repeat split; reflexivity|].
  destruct (_tick upper self _) as [r w''] eqn:E. vm_compute in E.
  match type of E with
  | context [if ?b then _ else _] => destruct b
  end; injection E as <- <-;
    (eexists; split; [reflexivity|]; split; [reflexivity|]);
    apply list_elem_of_lookup; exists 1; reflexivity.
Qed.

(** Claim C3.  [_is_heartbeat_empty] answers True exactly when the content
    is None, or is empty, or each of its lines (the pieces between "\n"),
    once trimmed, is empty, starts with "#", starts with "<!--", or is one
    of the four bare checkboxes; a single line of another kind makes it
    answer False. *)
Theorem is_heartbeat_empty_iff (content : option str) :
  (_is_heartbeat_empty content = true <->
     content = None \/ content = Some [] \/
     exists c, content = Some c /\
       Forall (fun line => not_actionable (strip line)) (split c LF)) /\
  (forall c line,
     content = Some c -> line ∈ split c LF -> ~ not_actionable (strip line) ->
     _is_heartbeat_empty content = false).
Proof.
  assert (forall c, _is_heartbeat_empty (Some c) = heartbeat_loop (split c LF)) as Hc.
  { intros [|a c]; [|done]. reflexivity. }
  split.
  - destruct content as [c|]; [|naive_solver].
    rewrite Hc, heartbeat_loop_Forall. split; [eauto|].
    intros [?|[[= ->]|(c' & [= <-] & H)]]; [done| |done].
    constructor; [by left|constructor].
  - intros c line -> Hin Hact. rewrite Hc. apply not_true_is_false.
    rewrite heartbeat_loop_Forall, Forall_forall. intros H.
    apply Hact. by apply H, list_elem_of_In.
Qed.

(** Claim C4.  When [task_content] is a substring of two or more pending
    lines, [TodoCompleteTaskTool.execute] changes the topmost of them and
    no other line: the file written is the lines joined by "\n" with that
    one line replaced, and every later matching line is read back as it
    was, marker included. *)
Theorem complete_task_first_match_only
    (content : str) hb tr (tc : str) (i j : nat) (li lj : str) :
  let lines := splitlines content in
  i < j -> lines !! i = Some li -> lines !! j = Some lj ->
  selects tc li = true -> selects tc lj = true ->
  exists k lk,
    lines !! k = Some lk /\ selects tc lk = true /\ k <= i /\
    (forall m l, m < k -> lines !! m = Some l -> selects tc l = false) /\
    let lines' := <[k := replace lk UNCHECKED CHECKED]> lines in
    TodoCompleteTaskTool_execute tc (World (Files (Some content) hb) [] tr) =
      (Returns (msg_completed tc),
       World (Files (Some (join [LF] lines')) hb) [] tr) /\
    lines' !! k <> lines !! k /\
    (forall m, m <> k -> lines' !! m = lines !! m) /\
    (forall m l, k < m -> lines !! m = Some l -> selects tc l = true ->
       contains UNCHECKED l = true /\
       splitlines (universal_newlines (join [LF] lines')) !! m = Some l).
Proof.
  intros lines Hij Hi Hj Hsi Hsj.
  destruct (find_first tc lines i li Hi Hsi) as (k & lk & Hfind & Hki).
  exists k, lk. pose proof Hfind as (Hk & Hsk & Hmin)%list_find_Some.
  split; [done|]. split; [by destruct (selects tc lk)|]. split; [done|].
  split.
  { intros m l Hm Hl. apply not_true_is_false. intros E.
    apply (Hmin m l Hl Hm). by rewrite E. }
  intros lines'. split; [|split; [|split]].
  - rewrite complete_run. fold lines. by rewrite Hfind.
  - unfold lines'. rewrite list_lookup_insert_eq by (by eapply lookup_lt_Some).
    rewrite Hk. intros [= E]. revert E. apply mark_changes.
    apply (selects_marker tc). by destruct (selects tc lk).
  - intros m Hm. unfold lines'. by rewrite list_lookup_insert_ne.
  - intros m l Hm Hl Hs. pose proof (selects_marker _ _ Hs) as Hc.
    split; [done|]. unfold lines', lines.
    rewrite splitlines_universal_newlines, reread_marked by done.
    apply reread_lookup.
    + rewrite list_lookup_insert_ne by lia. done.
    + left. by apply (contains_nonempty UNCHECKED).
Qed.

(** C4 on a file whose two lines both match. *)
Lemma complete_task_first_match_only_witness :
  TodoCompleteTaskTool_execute (lit "a")
    (World (Files (Some (lit "- [ ] a1" ++ [LF] ++ lit "- [ ] a2")) None) [] []) =
  (Returns (msg_completed (lit "a")),
   World (Files (Some (lit "- [x] a1" ++ [LF] ++ lit "- [ ] a2")) None) [] []).
Proof.
  destruct (complete_task_first_match_only
              (lit "- [ ] a1" ++ [LF] ++ lit "- [ ] a2") None [] (lit "a")
              0 1 (lit "- [ ] a1") (lit "- [ ] a2"))
    as (k & lk & H1 & _ & Hk & _ & Hrun & _); [lia|reflexivity..|].
  assert (k = 0) as -> by lia. vm_compute in H1. injection H1 as <-.
  exact Hrun.
Defined.

(** Claim C5, as amended.  For a description without line boundary that
    UTF-8 encodes and a priority among LOW, NORMAL and HIGH, on a file
    that is absent, empty or ends with a line boundary,
    [TodoAddTaskTool.execute] writes what was there (the header and a
    blank line when the file was absent) followed by the task line and
    "\n": the lines read back are the previous ones followed by exactly
    that line. *)
Theorem add_task_appends_line
    (f : option str) hb tr (task priority : str) :
  let base := default TODO_HEADER f in
  let line := task_line priority task in
  priority ∈ [lit "LOW"; lit "NORMAL"; lit "HIGH"] ->
  line_ok task ->
  encodable task ->
  ends_lines base ->
  exists written,
    TodoAddTaskTool_execute task priority (World (Files f hb) [] tr) =
      (Returns (msg_added task priority), World (Files (Some written) hb) [] tr) /\
    written = base ++ line ++ [LF] /\
    splitlines (universal_newlines written) =
      splitlines (universal_newlines base) ++ [line].
Proof.
  intros base line Hp Ht He Hb. eexists.
  split; [by apply add_run; [apply priority_encodable|]|]. split; [done|].
  rewrite !splitlines_universal_newlines. apply splitlines_append_line.
  - by apply ends_lines_closed.
  - apply task_line_ok; [by apply priority_line_ok|done].
  - done.
Qed.

(** The amended C5 on a workspace without TODO.md. *)
Lemma add_task_appends_line_witness :
  exists written,
    TodoAddTaskTool_execute (lit "buy milk") (lit "HIGH")
      (World (Files None None) [] []) =
      (Returns (msg_added (lit "buy milk") (lit "HIGH")),
       World (Files (Some written) None) [] []) /\
    splitlines (universal_newlines written) =
      [lit "# TODO"; []; lit "- [ ] [HIGH] buy milk"].
Proof.
  destruct (add_task_appends_line None None [] (lit "buy milk") (lit "HIGH"))
    as (written & Hrun & _ & Hlines).
  - repeat constructor.
  - repeat constructor.
  - repeat constructor.
  - reflexivity.
  - exists written. split; [exact Hrun|exact Hlines].
Defined.

(** Claim C5 as stated fails.  [complete_task] writes the file back
    without a final "\n", and the task added next continues the last
    line instead of forming a line of its own; a description that
    holds "\n" adds two lines; and a description that holds a lone
    surrogate adds none: the write raises UnicodeEncodeError and the
    tool returns the error text, the header being all that was
    written. *)
Lemma add_task_after_complete_joins_lines :
  let w0 := World (Files None None) [] [] in
  let before := lit "# TODO" ++ [LF; LF] ++ lit "- [x] [NORMAL] a" in
  let after := before ++ lit "- [ ] [NORMAL] b" ++ [LF] in
  (exists w1,
     TodoAddTaskTool_execute (lit "a") (lit "NORMAL") w0
       = (Returns (msg_added (lit "a") (lit "NORMAL")), w1) /\
     TodoCompleteTaskTool_execute (lit "a") w1
       = (Returns (msg_completed (lit "a")),
          World (Files (Some before) None) [] [])) /\
  TodoAddTaskTool_execute (lit "b") (lit "NORMAL")
    (World (Files (Some before) None) [] [])
    = (Returns (msg_added (lit "b") (lit "NORMAL")),
       World (Files (Some after) None) [] []) /\
  splitlines (universal_newlines before)
    = [lit "# TODO"; []; lit "- [x] [NORMAL] a"] /\
  splitlines (universal_newlines after)
    = [lit "# TODO"; []; lit "- [x] [NORMAL] a- [ ] [NORMAL] b"] /\
  splitlines (universal_newlines after)
    <> splitlines (universal_newlines before)
       ++ [task_line (lit "NORMAL") (lit "b")] /\
  (* a description that holds a line break adds two lines *)
  (exists written,
     TodoAddTaskTool_execute (lit "a" ++ [LF] ++ lit "b") (lit "NORMAL") w0
       = (Returns (msg_added (lit "a" ++ [LF] ++ lit "b") (lit "NORMAL")),
          World (Files (Some written) None) [] []) /\
     splitlines (universal_newlines written)
       = [lit "# TODO"; []; lit "- [ ] [NORMAL] a"; lit "b"]) /\
  (* a description that UTF-8 does not encode adds no line *)
  TodoAddTaskTool_execute [55296%N] (lit "NORMAL") w0
    = (Returns (lit "Error adding task: 'utf-8' codec can't encode character "
                ++ lit "'\ud800' in position 15: surrogates not allowed"),
       World (Files (Some (lit "# TODO" ++ [LF; LF])) None) [] []).
Proof.
  intros w0 before after. repeat split.
  - eexists. split; vm_compute; reflexivity.
  - discriminate.
  - eexists. split; vm_compute; reflexivity.
Qed.

(** Claim C6.  After a successful completion on the only pending line that
    holds [task_content], a second call with the same argument returns
    the not-found text and leaves the state, the file included, as it
    is. *)
Theorem complete_task_twice
    (content : str) hb tr (tc : str) (i : nat) (li : str) :
  let lines := splitlines content in
  lines !! i = Some li -> selects tc li = true ->
  (forall m l, lines !! m = Some l -> selects tc l = true -> m = i) ->
  exists w1,
    TodoCompleteTaskTool_execute tc (World (Files (Some content) hb) [] tr) =
      (Returns (msg_completed tc), w1) /\
    TodoCompleteTaskTool_execute tc w1 = (Returns (msg_not_found tc), w1).
Proof.
  intros lines Hi Hsi Huniq. subst lines.
  destruct (find_first tc _ i li Hi Hsi) as (k & lk & Hfind & Hki).
  pose proof Hfind as (Hk & Hsk & _)%list_find_Some.
  assert (k = i) as -> by (apply (Huniq k lk); [done|by destruct (selects tc lk)]).
  assert (lk = li) as -> by congruence.
  eexists. split.
  - rewrite complete_run, Hfind. reflexivity.
  - rewrite complete_run, reread_marked by done.
    match goal with
    | |- context [list_find ?P ?ls] =>
        destruct (list_find P ls) as [[m l]|] eqn:E; [exfalso|done]
    end.
    apply list_find_Some in E as (Hm%reread_incl & Hs & _).
    apply list_lookup_insert_Some in Hm as [(<- & <- & _)|[Hne Hm]].
    + apply Is_true_true, selects_marker in Hs.
      by rewrite mark_no_marker in Hs.
    + apply Hne. symmetry. apply (Huniq m l Hm). by apply Is_true_true.
Qed.

(** C6 on a file of two tasks. *)
Lemma complete_task_twice_witness :
  exists w1,
    TodoCompleteTaskTool_execute (lit "a")
      (World (Files (Some two_task_file) None) [] []) =
      (Returns (msg_completed (lit "a")), w1) /\
    TodoCompleteTaskTool_execute (lit "a") w1 =
      (Returns (msg_not_found (lit "a")), w1).
Proof.
  exact (complete_task_twice two_task_file None [] (lit "a") 0
           (lit "- [ ] a") eq_refl eq_refl two_task_file_unique).
Defined.

(** Claim C7.  [trigger_now] returns None, calling nothing, when no callback
    is bound.  Otherwise it calls the callback with the heartbeat prompt
    alone and returns its response; when that call raises TypeError it
    calls again with the prompt, "cli" and "trigger", and the outcome of
    this second call is its own; another exception propagates.  The
    proactive call of a tick follows the same contract with the two
    shapes exchanged. *)
Theorem trigger_now_dual_arity (self : HeartbeatService) (w : world) :
  (on_heartbeat self = None -> trigger_now self w = (Returns None, w)) /\
  (forall cb, on_heartbeat self = Some cb ->
     let one := [HEARTBEAT_PROMPT] in
     let three := [HEARTBEAT_PROMPT; lit "cli"; lit "trigger"] in
     (forall r d, cb (trace w) one (disk w) = (Returns r, d) ->
        trigger_now self w = (Returns r, after_call w one d)) /\
     (forall e d, cb (trace w) one (disk w) = (Raises e, d) ->
        is_TypeError e = true ->
        trigger_now self w = invoke cb three (after_call w one d)) /\
     (forall e d, cb (trace w) one (disk w) = (Raises e, d) ->
        is_TypeError e = false ->
        trigger_now self w = (Raises e, after_call w one d))) /\
  (forall cb prompt,
     let three := [prompt; proactive_channel self; proactive_chat_id self] in
     let one := [prompt] in
     (forall r d, cb (trace w) three (disk w) = (Returns r, d) ->
        proactive_call self cb prompt w =
        log INFO (lit "Proactive heartbeat completed: " ++ brief r)
          (after_call w three d)) /\
     (forall e d, cb (trace w) three (disk w) = (Raises e, d) ->
        is_TypeError e = true ->
        proactive_call self cb prompt w =
        (r <- invoke cb one ;;
         log INFO (lit "Proactive heartbeat completed (legacy): " ++ brief r))
          (after_call w three d)) /\
     (forall e d, cb (trace w) three (disk w) = (Raises e, d) ->
        is_TypeError e = false ->
        proactive_call self cb prompt w = (Raises e, after_call w three d))).
Proof.
  split; [|split].
  - unfold trigger_now. by intros ->.
  - intros cb Hcb one three. subst one three.
    unfold trigger_now, try_except. rewrite Hcb.
    repeat split.
    + intros r d H. by rewrite (invoke_returns _ _ _ _ _ H).
    + intros e d H He. by rewrite (invoke_raises _ _ _ _ _ H), He.
    + intros e d H He. by rewrite (invoke_raises _ _ _ _ _ H), He.
  - intros cb prompt three one. subst one three.
    unfold proactive_call, try_except. repeat split.
    + intros r d H. unfold bind at 1. by rewrite (invoke_returns _ _ _ _ _ H).
    + intros e d H He. unfold bind at 1.
      by rewrite (invoke_raises _ _ _ _ _ H), He.
    + intros e d H He. unfold bind at 1.
      by rewrite (invoke_raises _ _ _ _ _ H), He.
Qed.

(** C7 with a callable that takes three arguments only. *)
Lemma trigger_now_dual_arity_witness :
  trigger_now (service_of (Some channel_aware_agent) false [])
    (World (Files None None) [] []) =
  (Returns (Some (lit "done")),
   World (Files None None) []
     [Called [HEARTBEAT_PROMPT];
      Called [HEARTBEAT_PROMPT; lit "cli"; lit "trigger"]]).
Proof.
  destruct (trigger_now_dual_arity
              (service_of (Some channel_aware_agent) false [])
              (World (Files None None) [] [])) as (_ & H & _).
  destruct (H channel_aware_agent eq_refl) as (_ & H2 & _).
  rewrite (H2 (Exn TypeError (lit "missing 2 required positional arguments"))
              (Files None None) eq_refl eq_refl).
  reflexivity.
Defined.


(** Claim C9.  When [stop()] is called while the loop task sleeps, [stop]
    returns, [_running] is false and [_task] is None; the cancellation is
    delivered at the sleep and the task finishes at its next resumption;
    whatever the event loop resumes afterwards, no tick runs and the
    world stays as it is. *)
Theorem stop_during_sleep (upper : str -> str) (rt : runtime) (h : nat) :
  _task (service rt) = Some h ->
  tasks rt !! h = Some (Task Sleeping false) ->
  exists rt',
    stop rt = (Returns tt, rt') /\
    _running (service rt') = false /\
    _task (service rt') = None /\
    env rt' = env rt /\ ticks rt' = ticks rt /\
    tasks rt' !! h = Some (Task Sleeping true) /\
    (* the next resumption of the task ends the loop *)
    tasks (resume upper h rt') !! h = Some (Task Finished false) /\
    (* and whatever the event loop runs from then on, no tick is run *)
    forall schedule,
      ticks (run upper schedule rt') = ticks rt /\
      env (run upper schedule rt') = env rt /\
      (h ∈ schedule ->
       tasks (run upper schedule rt') !! h = Some (Task Finished false)).
Proof.
  intros Ht Hh. unfold stop. cbn. rewrite Ht. eexists. split; [reflexivity|].
  cbn. assert (h < length (tasks rt)) as Hlt by (by eapply lookup_lt_Some).
  repeat split.
  - by rewrite list_lookup_alter_eq, Hh.
  - unfold resume. cbn. rewrite list_lookup_alter_eq, Hh. cbn.
    apply list_lookup_insert_eq. by rewrite length_alter.
  - by destruct (run_stopped upper schedule
           (Runtime (set_task None (set_running false (service rt)))
                    (alter cancel h (tasks rt)) (env rt) (ticks rt)) eq_refl)
      as (_ & _ & ->).
  - by destruct (run_stopped upper schedule
           (Runtime (set_task None (set_running false (service rt)))
                    (alter cancel h (tasks rt)) (env rt) (ticks rt)) eq_refl)
      as (_ & -> & _).
  - revert schedule.
    set (rt' := Runtime _ _ _ _).
    assert (forall schedule r,
      _running (service r) = false ->
      (tasks r !! h = Some (Task Sleeping true)
       \/ tasks r !! h = Some (Task Finished false)) ->
      (tasks r !! h = Some (Task Finished false) \/ h ∈ schedule) ->
      tasks (run upper schedule r) !! h = Some (Task Finished false)) as Hrun.
    { induction schedule as [|h' rest IH]; intros r Hr Hst Hin.
      - destruct Hin as [?|Hin]; [done|]. by apply elem_of_nil in Hin.
      - cbn [run]. destruct Hst as [Hst|Hst].
        + destruct (decide (h' = h)) as [->|Hne].
          * apply run_finished. unfold resume. rewrite Hst.
            apply list_lookup_insert_eq. by eapply lookup_lt_Some.
          * apply IH.
            -- by destruct (resume_stopped upper h' r Hr) as (-> & _).
            -- left.
               destruct (resume_park upper h' r) as [->|(st & w & n & ->)];
                 [done|]. cbn. by rewrite list_lookup_insert_ne.
            -- right. destruct Hin as [Hin|Hin]; [congruence|].
               apply elem_of_cons in Hin as [->|Hin]; done.
        + by apply run_finished, resume_finished. }
    intros schedule Hin. apply Hrun; [done| |by right].
    left. unfold rt'. cbn. by rewrite list_lookup_alter_eq, Hh.
Qed.

(** C9 on a service whose only task sleeps. *)
Lemma stop_during_sleep_witness :
  exists rt',
    stop sleeping_service = (Returns tt, rt') /\
    _running (service rt') = false /\
    tasks (resume (fun s => s) 0 rt') = [Task Finished false] /\
    ticks (run (fun s => s) [0; 0] rt') = 0.
Proof.
  destruct (stop_during_sleep (fun s => s) sleeping_service 0 eq_refl eq_refl)
    as (rt' & Hstop & Hr & _ & _ & _ & _ & _ & Hrun).
  exists rt'. split; [exact Hstop|]. split; [exact Hr|].
  split; [|exact (proj1 (Hrun [0; 0]))].
  vm_compute in Hstop. injection Hstop as <-. reflexivity.
Defined.

(** Claim C10, as amended.  Listing with [only_pending], completing, and
    the proactive scan of a tick all take pending to mean: contains
    "- [ ]".  The listing shows exactly the lines that contain it;
    completing succeeds exactly when some line contains both it and
    [task_content]; the tick calls the callback exactly when the
    content contains it, which is when one of its lines does.  A "* [ ] "
    checkbox adds nothing: such a line is pending only through a "- [ ]"
    in the rest of its text. *)
Theorem pending_iff_contains_marker
    (content : str) hb tr (tc : str) (self : HeartbeatService) (cb : callback) :
  let lines := splitlines content in
  let w := World (Files (Some content) hb) [] tr in
  (exists pending,
     fst (TodoListTasksTool_execute true w) =
       Returns (match pending with
                | [] => lit "No pending tasks found."
                | _ => lit "Pending tasks:" ++ [LF] ++ join [LF] pending
                end) /\
     forall line,
       line ∈ pending <-> line ∈ lines /\ contains UNCHECKED line = true) /\
  (fst (TodoCompleteTaskTool_execute tc w) = Returns (msg_completed tc) <->
     exists line,
       line ∈ lines /\ contains tc line = true /\ contains UNCHECKED line = true) /\
  (on_heartbeat self = Some cb -> proactive_enabled self = true ->
   proactive_chat_id self <> [] ->
     (contains UNCHECKED content = true ->
        exists r w',
          proactive_check self w = (r, w') /\
          Called [proactive_prompt (universal_newlines content);
                  proactive_channel self; proactive_chat_id self] ∈ trace w') /\
     (contains UNCHECKED content = false ->
        proactive_check self w = (Returns tt, w))) /\
  (contains UNCHECKED content = true <->
     exists line, line ∈ lines /\ contains UNCHECKED line = true) /\
  (forall rest,
     contains UNCHECKED (lit "* [ ] " ++ rest) = contains UNCHECKED rest) /\
  (forall a b, contains UNCHECKED (a ++ UNCHECKED ++ b) = true).
Proof.
  intros lines w. split; [|split; [|split; [|split; [|split]]]].
  - exists (filter (fun l => contains UNCHECKED l) lines). split.
    + unfold w. rewrite list_pending_run. cbn [fst]. fold lines.
      f_equal. by destruct (filter _ lines).
    + intros line. rewrite list_elem_of_filter. unfold lines.
      split; intros [H1 H2]; split; try done; by destruct (contains UNCHECKED line).
  - unfold w. rewrite complete_run. fold lines.
    destruct (list_find _ lines) as [[k l]|] eqn:E; cbn [fst].
    + pose proof E as (Hk & Hs & _)%list_find_Some.
      split; [intros _|done]. exists l. split; [by eapply list_elem_of_lookup_2|].
      by apply Is_true_true, andb_true_iff in Hs.
    + split; [intros [= H]; by apply msg_completed_not_msg_not_found in H|].
      intros (line & Hin & H1 & H2). apply list_find_None in E.
      rewrite Forall_forall in E. exfalso. apply (E line).
      * by apply list_elem_of_In.
      * unfold selects. by rewrite H1, H2.
  - intros Hcb Hen Hid. unfold w.
    rewrite (proactive_check_run self cb) by done. split.
    + intros ->. apply proactive_call_invokes.
    + by intros ->.
  - apply contains_by_line; [done|apply UNCHECKED_line_ok].
  - apply star_marker_not_pending.
  - intros a b. apply contains_infix. by exists a, b.
Qed.

(** The amended C10 on a workspace with one pending task. *)
Lemma pending_iff_contains_marker_witness :
  exists r w',
    proactive_check (service_of (Some channel_aware_agent) true (lit "42"))
      busy_workspace = (r, w') /\
    Called [proactive_prompt (lit "- [ ] a" ++ [LF]); lit "qq"; lit "42"] ∈ trace w'.
Proof.
  destruct (pending_iff_contains_marker (lit "- [ ] a" ++ [LF])
              (Some (lit "water the plants" ++ [LF])) [] (lit "a")
              (service_of (Some channel_aware_agent) true (lit "42"))
              channel_aware_agent) as (_ & _ & H & _).
  destruct (H eq_refl eq_refl) as [H1 _]; [discriminate|].
  exact (H1 eq_refl).
Defined.

(** Claim C10 as stated fails.  A checklist line with the "*" bullet whose
    description holds "- [ ]" is pending for all three: the listing
    shows it, completing rewrites it, and the scan of the tick calls the
    callback on it. *)
Lemma star_bullet_line_is_pending :
  let line := lit "* [ ] explain the - [ ] marker" in
  let w := World (Files (Some (line ++ [LF])) None) [] [] in
  let self := service_of (Some channel_aware_agent) true (lit "42") in
  TodoListTasksTool_execute true w =
    (Returns (lit "Pending tasks:" ++ [LF] ++ line), w) /\
  TodoCompleteTaskTool_execute (lit "explain") w =
    (Returns (msg_completed (lit "explain")),
     World (Files (Some (lit "* [ ] explain the - [x] marker")) None) [] []) /\
  exists r w',
    proactive_check self w = (r, w') /\
    Called [proactive_prompt (line ++ [LF]); lit "qq"; lit "42"] ∈ trace w'.
Proof.
  intros line w self. split; [reflexivity|]. split; [reflexivity|].
  eexists _, _. split; [vm_compute; reflexivity|].
  apply list_elem_of_lookup. exists 1. reflexivity.
Qed.

(** * Further properties *)

(** Property X1.  [TodoListTasksTool.execute] only reads: whatever the
    state, the argument and the file-system calls that fail, the files
    are afterwards what they were, and nothing has been logged or
    called. *)
Theorem list_tasks_only_reads (only_pending : bool) (w : world) :
  disk (snd (TodoListTasksTool_execute only_pending w)) = disk w /\
  trace (snd (TodoListTasksTool_execute only_pending w)) = trace w.
Proof.
  assert (keeps same_files (TodoListTasksTool_execute only_pending)) as H.
  { unfold TodoListTasksTool_execute.
    frame same_files_refl same_files_trans. }
  apply H.
Qed.

(** Property X2.  [TodoAddTaskTool.execute] and
    [TodoCompleteTaskTool.execute] touch TODO.md alone: whatever the
    state and the file-system calls that fail, HEARTBEAT.md is what it
    was and nothing has been logged or called; and completing never
    creates a TODO.md that was absent. *)
Theorem todo_tools_leave_the_rest (task priority task_content : str) (w : world) :
  same_but_todo w (snd (TodoAddTaskTool_execute task priority w)) /\
  same_but_todo w (snd (TodoCompleteTaskTool_execute task_content w)) /\
  (todo_md (disk w) = None ->
   todo_md (disk (snd (TodoCompleteTaskTool_execute task_content w))) = None).
Proof.
  split; [|split].
  - assert (keeps same_but_todo (TodoAddTaskTool_execute task priority)) as H.
    { unfold TodoAddTaskTool_execute.
      frame same_but_todo_refl same_but_todo_trans. }
    apply H.
  - assert (keeps same_but_todo (TodoCompleteTaskTool_execute task_content)) as H.
    { unfold TodoCompleteTaskTool_execute.
      frame same_but_todo_refl same_but_todo_trans. }
    apply H.
  - intros Hnone.
    destruct w as [d plan tr]. cbn in Hnone.
    unfold TodoCompleteTaskTool_execute, try_except, path_exists, bind, fault,
      get_file, ret.
    destruct plan as [|[[m|m]|] plan]; cbn; rewrite ?Hnone; cbn; done.
Qed.

(** Property X3.  Whatever TODO.md holds, or if it is absent: after
    [add_task] of a description and a priority that hold no line break
    and that UTF-8 encodes, [list_tasks(only_pending=True)] lists
    pending tasks, and the last line listed ends with the line of the
    new task, marker, priority and description. *)
Theorem add_then_list_pending
    (f : option str) (hb : option str) (tr : list event)
    (task priority : str) :
  plain priority -> plain task ->
  exists w1 earlier pre,
    Skills.add_task task priority (World (Files f hb) [] tr) =
      (Returns (msg_added task priority), w1) /\
    Skills.list_tasks true w1 =
      (Returns (lit "Pending tasks:" ++ [LF]
                ++ join [LF] (earlier ++ [pre ++ task_line priority task])),
       w1).
Proof.
  intros [Hp Hpe] [Ht Hte].
  destruct (splitlines_append_any (default TODO_HEADER f) (task_line priority task))
    as (ls & pre & E); [by apply task_line_ok|apply task_line_nonempty|].
  eexists _, (pending_of ls), pre. split; [by apply add_run|].
  unfold Skills.list_tasks. cbn [execute TodoListTasksTool].
  rewrite list_pending_run, E. fold (pending_of (ls ++ [pre ++ task_line priority task])).
  rewrite pending_of_app. unfold pending_of at 2.
  rewrite list.filter_cons_True by apply Is_true_true, task_line_pending.
  rewrite filter_nil.
  by destruct (pending_of ls).
Qed.

(** X3 on a file whose last line has no terminator. *)
Lemma add_then_list_pending_witness :
  exists w1 earlier pre,
    Skills.add_task (lit "b") (lit "HIGH")
      (World (Files (Some (lit "- [x] a")) None) [] []) =
      (Returns (msg_added (lit "b") (lit "HIGH")), w1) /\
    Skills.list_tasks true w1 =
      (Returns (lit "Pending tasks:" ++ [LF]
                ++ join [LF] (earlier ++ [pre ++ task_line (lit "HIGH") (lit "b")])),
       w1).
Proof.
  apply (add_then_list_pending (Some (lit "- [x] a")) None [] (lit "b") (lit "HIGH"));
    split; by repeat constructor.
Defined.

(** Property X4.  Tasks added one after the other to a TODO.md that is
    absent, empty or ends with a line break, their descriptions and
    priorities holding no line break and nothing UTF-8 does not encode,
    are listed in the order of the calls, after what the file listed
    before: the pending listing shows the earlier pending lines and then
    one line per task, the full listing the earlier lines and then one
    line per task. *)
Theorem add_tasks_then_list
    (f : option str) (hb : option str) (tr : list event)
    (ts : list (str * str)) :
  ts <> [] ->
  Forall (fun t => plain (fst t) /\ plain (snd t)) ts ->
  ends_lines (default TODO_HEADER f) ->
  exists w1,
    add_tasks ts (World (Files f hb) [] tr) = (Returns tt, w1) /\
    Skills.list_tasks true w1 =
      (Returns (lit "Pending tasks:" ++ [LF]
                ++ join [LF] (pending_of (splitlines (default TODO_HEADER f))
                              ++ map task_line_of ts)),
       w1) /\
    Skills.list_tasks false w1 =
      (Returns (lit "All tasks:" ++ [LF]
                ++ join [LF] (splitlines (default TODO_HEADER f)
                              ++ map task_line_of ts)),
       w1).
Proof.
  intros Hne Hts Hf.
  assert (add_tasks ts (World (Files f hb) [] tr) =
          (Returns tt,
           World (Files (Some (default TODO_HEADER f ++ written ts)) hb) [] tr))
    as Hrun.
  { destruct f as [c|]; [by apply add_tasks_run|].
    destruct ts as [|[task priority] ts]; [done|].
    inversion Hts as [|? ? [[_ Ht] [_ Hp]] Hts']; subst.
    cbn [add_tasks]. unfold bind, Skills.add_task. cbn [execute TodoAddTaskTool].
    rewrite add_run, add_tasks_run, written_cons by done. cbn [default].
    by rewrite <- !app_assoc. }
  eexists. split; [exact Hrun|].
  unfold Skills.list_tasks. cbn [execute TodoListTasksTool].
  rewrite list_pending_run, list_all_run, splitlines_written by done.
  fold (pending_of (splitlines (default TODO_HEADER f) ++ map task_line_of ts)).
  rewrite pending_of_app, pending_of_task_lines.
  destruct ts as [|t ts]; [done|]. cbn [map]. split.
  - by destruct (pending_of _).
  - by destruct (splitlines _).
Qed.

(** X4 on a fresh workspace, with the three tasks of the example of
    skills/todo.py. *)
Lemma add_tasks_then_list_witness :
  exists w1,
    add_tasks [(lit "Review project documentation", lit "HIGH");
               (lit "Update test cases", lit "NORMAL");
               (lit "Fix minor UI issues", lit "LOW")]
      (World (Files None None) [] []) = (Returns tt, w1) /\
    Skills.list_tasks true w1 =
      (Returns (lit "Pending tasks:" ++ [LF]
                ++ lit "- [ ] [HIGH] Review project documentation" ++ [LF]
                ++ lit "- [ ] [NORMAL] Update test cases" ++ [LF]
                ++ lit "- [ ] [LOW] Fix minor UI issues"),
       w1).
Proof.
  destruct (add_tasks_then_list None None []
              [(lit "Review project documentation", lit "HIGH");
               (lit "Update test cases", lit "NORMAL");
               (lit "Fix minor UI issues", lit "LOW")])
    as (w1 & Hadd & Hpend & _);
    [done|by repeat constructor|reflexivity|].
  exists w1. split; [exact Hadd|]. exact Hpend.
Defined.

(** Property X5.  When [complete_task] finds a line to complete, the
    pending listing afterwards is the pending listing before with that
    one line taken out: the other pending lines stay, in their order. *)
Theorem complete_task_removes_one_pending
    (content : str) (hb : option str) (tr : list event) (tc : str)
    (before : list str) (l : str) (after : list str) :
  splitlines content = before ++ l :: after ->
  Forall (fun l' => selects tc l' = false) before ->
  selects tc l = true ->
  let w := World (Files (Some content) hb) [] tr in
  exists w1,
    Skills.list_tasks true w =
      (Returns (pending_listing (pending_of before ++ l :: pending_of after)), w) /\
    Skills.complete_task tc w = (Returns (msg_completed tc), w1) /\
    Skills.list_tasks true w1 =
      (Returns (pending_listing (pending_of before ++ pending_of after)), w1).
Proof.
  intros Hc Hb Hl w. subst w. eexists. split; [|split].
  - rewrite list_pending_listing, Hc, pending_of_app.
    by rewrite (pending_of_selected tc).
  - unfold Skills.complete_task. cbn [execute TodoCompleteTaskTool].
    rewrite complete_run, Hc, find_after by done. reflexivity.
  - rewrite list_pending_listing. rewrite <- Hc at 1.
    rewrite reread_marked by (rewrite Hc; by apply list_lookup_middle).
    rewrite pending_of_reread, Hc, insert_app_r_alt, Nat.sub_diag by done.
    cbn [insert list_insert]. by rewrite pending_of_app, pending_of_marked.
Qed.

(** X5 on a file of two pending tasks, the first of which is completed. *)
Lemma complete_task_removes_one_pending_witness :
  exists w1,
    Skills.list_tasks true (World (Files (Some two_task_file) None) [] []) =
      (Returns (lit "Pending tasks:" ++ [LF] ++ lit "- [ ] a" ++ [LF] ++ lit "- [ ] b"),
       World (Files (Some two_task_file) None) [] []) /\
    Skills.complete_task (lit "a") (World (Files (Some two_task_file) None) [] []) =
      (Returns (msg_completed (lit "a")), w1) /\
    Skills.list_tasks true w1 =
      (Returns (lit "Pending tasks:" ++ [LF] ++ lit "- [ ] b"), w1).
Proof.
  exact (complete_task_removes_one_pending two_task_file None [] (lit "a")
           [] (lit "- [ ] a") [lit "- [ ] b"] eq_refl (Forall_nil_2 _) eq_refl).
Defined.

(** Property X6.  Whatever the state and whichever file-system calls
    fail: [add_task] either reports success, having appended exactly its
    line, or reports the error, the file being as it was or, if it was
    absent, holding the header alone; [complete_task] changes the file
    only when it reports success. *)
Theorem todo_writes_are_reported (task priority task_content : str) (w : world) :
  (let '(r, w') := TodoAddTaskTool_execute task priority w in
   r = Returns (msg_added task priority) /\
     todo_md (disk w') =
       Some (default TODO_HEADER (todo_md (disk w))
             ++ task_line priority task ++ [LF])
   \/ (exists msg, r = Returns (lit "Error adding task: " ++ msg)) /\
      (todo_md (disk w') = todo_md (disk w)
       \/ todo_md (disk w) = None /\ todo_md (disk w') = Some TODO_HEADER)) /\
  (let '(r, w') := TodoCompleteTaskTool_execute task_content w in
   r = Returns (msg_completed task_content)
   \/ todo_md (disk w') = todo_md (disk w)).
Proof.
  destruct w as [[f hb] plan tr]. split.
  - unfold TodoAddTaskTool_execute, append_text, write_text, path_exists,
      try_except, bind, fault, get_file, put_file, ret, raise, msg_added,
      task_line, TODO_HEADER.
    destruct f as [c|];
      destruct plan as [|[[m1|m1]|] [|[[m2|m2]|] [|[[m3|m3]|] plan]]];
      cbn -[utf8_encode_error];
      try destruct (utf8_encode_error _) as [e|] eqn:E;
      cbn -[utf8_encode_error];
      try match goal with
          | E : utf8_encode_error _ = Some _ |- _ =>
              rewrite (utf8_encode_error_Exception _ _ E)
          end;
      cbn; rewrite <- ?app_assoc;
      first [ by left | right; split; [by eexists|]; by auto ].
  - unfold TodoCompleteTaskTool_execute, try_except, bind, path_exists,
      read_text, write_text, fault, get_file, put_file, ret, raise, msg_completed.
    destruct f as [c|]; destruct plan as [|[[m1|m1]|] [|[[m2|m2]|] [|[[m3|m3]|] plan]]]; cbn;
      try (by right);
      destruct (complete_loop _ _ _ _) as [[] lines]; cbn; auto.
Qed.

(** Property X7.  A tick that finds no reason for the proactive call (no
    "- [ ]" in TODO.md, or the option off, no chat id, no callback) and
    nothing to act on in HEARTBEAT.md calls nobody and changes no file,
    whichever file-system calls fail: it either returns, having logged
    the one DEBUG record, or raises, having logged nothing. *)
Theorem tick_without_work
    (upper : str -> str) (self : HeartbeatService) (w : world) :
  no_proactive_call self (default [] (todo_md (disk w))) ->
  _is_heartbeat_empty (universal_newlines <$> heartbeat_md (disk w)) = true ->
  exists r w',
    _tick upper self w = (r, w') /\ disk w' = disk w /\
    (r = Returns tt /\ trace w' = trace w ++ [LOG_NO_TASKS]
     \/ (exists e, r = Raises e) /\ trace w' = trace w).
Proof.
  intros Hp Hh. destruct (proactive_check_skips self w Hp) as (r & plan & E & Hr).
  unfold _tick, bind. rewrite E. destruct Hr as [->|[e ->]].
  - destruct (instructions_check_skips upper self (World (disk w) plan (trace w)) Hh)
      as (plan' & [E2|[e E2]]); rewrite E2; eexists _, _; (split; [done|]);
      cbn; eauto.
  - eexists _, _. split; [done|]. cbn. eauto.
Qed.

(** X7 on a workspace whose TODO.md holds completed tasks only and whose
    HEARTBEAT.md holds a heading, with the proactive path configured. *)
Lemma tick_without_work_witness :
  exists r w',
    _tick (fun s => s) (service_of (Some channel_aware_agent) true (lit "42"))
      (World (Files (Some (lit "- [x] a")) (Some (lit "# Notes"))) [] []) = (r, w') /\
    disk w' = Files (Some (lit "- [x] a")) (Some (lit "# Notes")) /\
    (r = Returns tt /\ trace w' = [LOG_NO_TASKS]
     \/ (exists e, r = Raises e) /\ trace w' = []).
Proof.
  apply (tick_without_work (fun s => s)
           (service_of (Some channel_aware_agent) true (lit "42"))
           (World (Files (Some (lit "- [x] a")) (Some (lit "# Notes"))) [] []));
    [by left|reflexivity].
Defined.

(** Property X8.  A read that fails counts as a file without content: when
    both files exist and both reads fail, whatever they hold and however
    the service is configured, the tick returns, calls nobody, and logs
    the DEBUG record of an empty HEARTBEAT.md. *)
Theorem tick_unreadable_files
    (upper : str -> str) (self : HeartbeatService)
    (todo hb : str) (e1 e2 : io_error) (plan : list (option io_error))
    (tr : list event) :
  _tick upper self
    (World (Files (Some todo) (Some hb))
           (None :: Some e1 :: None :: Some e2 :: plan) tr) =
  (Returns tt, World (Files (Some todo) (Some hb)) plan (tr ++ [LOG_NO_TASKS])).
Proof.
  unfold _tick, proactive_check, instructions_check, _read_heartbeat_file,
    try_except, bind, path_exists, read_text, fault, get_file, ret, raise, log.
  by destruct e1, e2.
Qed.

(** Property X9.  What a tick does with the callback once HEARTBEAT.md
    calls for action (no proactive call, no file-system call failing):
    the callback is called once, with the heartbeat prompt alone.  A
    reply is logged as OK or as a completed task; no reply (None) and an
    exception deriving from [Exception] are logged as a failed execution
    and the tick returns; an exception outside [Exception] leaves the
    tick. *)
Theorem tick_callback_outcomes
    (upper : str -> str) (self : HeartbeatService) (cb : callback)
    (todo : option str) (hb : str) (tr : list event) :
  on_heartbeat self = Some cb ->
  no_proactive_call self (default [] todo) ->
  _is_heartbeat_empty (Some (universal_newlines hb)) = false ->
  let d := Files todo (Some hb) in
  let tr1 := tr ++ [LOG_CHECKING] in
  let called := tr1 ++ [Called [HEARTBEAT_PROMPT]] in
  _tick upper self (World d [] tr) =
  match cb tr1 [HEARTBEAT_PROMPT] d with
  | (Returns (Some r), d') =>
      (Returns tt,
       World d' []
         (called ++ [Logged INFO
                       (if says_ok upper r
                        then lit "Heartbeat: OK (no action needed)"
                        else lit "Heartbeat: completed task")]))
  | (Returns None, d') =>
      (Returns tt,
       World d' []
         (called ++ [Logged ERROR
                       (lit "Heartbeat execution failed: "
                        ++ lit "'NoneType' object has no attribute 'upper'")]))
  | (Raises e, d') =>
      if is_Exception e
      then (Returns tt,
            World d' []
              (called ++ [Logged ERROR
                            (lit "Heartbeat execution failed: " ++ exn_str e)]))
      else (Raises e, World d' [] called)
  end.
Proof.
  intros Hcb Hp Hh d tr1 called. subst d tr1 called.
  unfold _tick, bind at 1. rewrite proactive_check_skips_run by done.
  unfold instructions_check, _read_heartbeat_file, try_except, bind,
    path_exists, read_text, fault, get_file, ret, raise, log, invoke,
    LOG_CHECKING.
  cbn -[_is_heartbeat_empty]. rewrite Hh, Hcb. cbn.
  destruct (cb _ _ _) as [[[r|]|e] d']; cbn.
  - by destruct (says_ok upper r).
  - done.
  - by destruct (is_Exception e).
Qed.

(** X9 with a callback that fails when it runs. *)
Lemma tick_callback_outcomes_witness :
  _tick (fun s => s) (service_of (Some failing_legacy_agent) false []) busy_workspace =
  (Returns tt,
   World (disk busy_workspace) []
     [LOG_CHECKING; Called [HEARTBEAT_PROMPT];
      Logged ERROR (lit "Heartbeat execution failed: agent crashed")]).
Proof.
  exact (tick_callback_outcomes (fun s => s)
           (service_of (Some failing_legacy_agent) false []) failing_legacy_agent
           (Some (lit "- [ ] a" ++ [LF])) (lit "water the plants" ++ [LF]) []
           eq_refl (or_intror (or_introl eq_refl)) eq_refl).
Defined.

(** Property X10.  The reply of the agent counts as "nothing to do"
    exactly when its upper-cased text holds, somewhere, the letters
    HEARTBEATOK in a row once its underscores are left out: the token
    may stand anywhere in the reply, with underscores anywhere in it or
    none. *)
Theorem says_ok_iff (upper : str -> str) (r : str) :
  says_ok upper r = true <->
  exists x t y,
    upper r = x ++ t ++ y /\ without_underscores t = lit "HEARTBEATOK".
Proof.
  unfold says_ok. rewrite !replace_underscore.
  change (without_underscores HEARTBEAT_OK_TOKEN) with (lit "HEARTBEATOK").
  rewrite contains_infix. split.
  - intros (a & b & H).
    apply without_underscores_split in H as (x & s2 & E & <- & H).
    apply without_underscores_split in H as (t & y & -> & Ht & <-).
    by exists x, t, y.
  - intros (x & t & y & -> & Ht).
    exists (without_underscores x), (without_underscores y).
    by rewrite !without_underscores_app, Ht.
Qed.

(** Property X11.  A failing tick does not end the loop.  If the
    callback raises nothing outside [Exception] and the interval is one
    [asyncio.sleep] takes, then whatever the files hold, whichever
    file-system calls fail and in whatever order the event loop resumes
    its tasks, the sleeping loop task of a running service is asleep
    again afterwards, the service is as it was, and the next resumption
    of the task runs a tick. *)
Theorem loop_survives_failing_ticks
    (upper : str -> str) (rt : runtime) (h : nat) (schedule : list nat) :
  tasks rt !! h = Some (Task Sleeping false) ->
  _running (service rt) = true ->
  (interval_s (service rt) < FLOAT_LIMIT)%Z ->
  (forall cb, on_heartbeat (service rt) = Some cb -> raises_Exception_only cb) ->
  let rt' := run upper schedule rt in
  tasks rt' !! h = Some (Task Sleeping false) /\
  service rt' = service rt /\
  ticks (resume upper h rt') = S (ticks rt').
Proof.
  intros Hh Hr Hi Hcb rt'. subst rt'.
  assert (tasks (run upper schedule rt) !! h = Some (Task Sleeping false)
          /\ service (run upper schedule rt) = service rt) as [Hh' Hs'].
  { revert rt Hh Hr Hi Hcb.
    induction schedule as [|h' rest IH]; intros rt Hh Hr Hi Hcb; [done|].
    cbn [run]. destruct (IH (resume upper h' rt)) as [IH1 IH2].
    - destruct (decide (h = h')) as [<-|Hne];
        [by apply resume_survives|by rewrite resume_other].
    - by rewrite resume_service.
    - by rewrite resume_service.
    - by rewrite resume_service.
    - by rewrite IH1, IH2, resume_service. }
  split; [done|]. split; [done|]. apply resume_ticks; [done|].
  by rewrite Hs'.
Qed.

(** X11 on a service whose callback fails at every call: three
    resumptions, three failed ticks, and the task sleeps. *)
Lemma loop_survives_failing_ticks_witness :
  tasks (run (fun s => s) [0; 0; 0] failing_service) !! 0
    = Some (Task Sleeping false) /\
  service (run (fun s => s) [0; 0; 0] failing_service) = service failing_service /\
  ticks (resume (fun s => s) 0 (run (fun s => s) [0; 0; 0] failing_service))
    = S (ticks (run (fun s => s) [0; 0; 0] failing_service)).
Proof.
  apply (loop_survives_failing_ticks (fun s => s) failing_service 0 [0; 0; 0]);
    [reflexivity|reflexivity|reflexivity|].
  intros cb [= <-]. apply failing_legacy_agent_Exceptions.
Defined.

(** Property X12.  [stop()] ends every loop, the one it has the handle
    of and any other (as a second [start()] leaves behind), not yet run
    or asleep: whatever the event loop resumes afterwards, no tick runs,
    the world stays as it is, and every task that has been resumed has
    ended. *)
Theorem stop_ends_every_loop
    (upper : str -> str) (rt : runtime) (h : nat) (t : task)
    (schedule : list nat) :
  tasks rt !! h = Some t ->
  h ∈ schedule ->
  let rt' := run upper schedule (snd (stop rt)) in
  ticks rt' = ticks rt /\ env rt' = env rt /\
  exists t', tasks rt' !! h = Some t' /\ is_done t' = true.
Proof.
  intros Hh Hin rt'. subst rt'.
  assert (_running (service (snd (stop rt))) = false /\
          env (snd (stop rt)) = env rt /\ ticks (snd (stop rt)) = ticks rt /\
          exists t0, tasks (snd (stop rt)) !! h = Some t0) as (Hr & He & Ht & t0 & H0).
  { unfold stop. cbn. destruct (_task (service rt)) as [h0|]; cbn.
    - repeat split. destruct (decide (h0 = h)) as [->|Hne].
      + rewrite list_lookup_alter_eq, Hh. by eexists.
      + rewrite list_lookup_alter_ne by done. by eexists.
    - repeat split. by eexists. }
  destruct (run_stopped upper schedule _ Hr) as (_ & He' & Ht').
  rewrite He', Ht', He, Ht. split; [done|]. split; [done|].
  by eapply run_ends.
Qed.

(** X12 after two calls of [start()]: the first loop, of which the
    service has kept no handle, ends as well. *)
Lemma stop_ends_every_loop_witness :
  ticks (run (fun s => s) [1; 0] (snd (stop (snd (start (snd (start fresh_service)))))))
    = 0 /\
  env (run (fun s => s) [1; 0] (snd (stop (snd (start (snd (start fresh_service)))))))
    = env (snd (start (snd (start fresh_service)))) /\
  exists t',
    tasks (run (fun s => s) [1; 0]
             (snd (stop (snd (start (snd (start fresh_service))))))) !! 0 = Some t'
    /\ is_done t' = true.
Proof.
  apply (stop_ends_every_loop (fun s => s) (snd (start (snd (start fresh_service))))
           0 (Task Created false) [1; 0]); [reflexivity|].
  apply elem_of_cons. right. apply elem_of_cons. by left.
Defined.



(** Property X14.  A second [start()] on a running service makes a
    second loop beside the first: the service keeps the handle of the
    second only, and, with an interval that [asyncio.sleep] takes, once
    both tasks sleep each of them runs a tick when resumed, so that the
    ticks come twice per interval. *)
Theorem second_start_second_loop (upper : str -> str) (rt : runtime) :
  enabled (service rt) = true ->
  (interval_s (service rt) < FLOAT_LIMIT)%Z ->
  let n := length (tasks rt) in
  let rt2 := snd (start (snd (start rt))) in
  tasks rt2 = tasks rt ++ [Task Created false; Task Created false] /\
  _task (service rt2) = Some (S n) /\
  ticks (run upper [n; S n] rt2) = ticks rt /\
  ticks (run upper [n; S n; n; S n] rt2) = S (S (ticks rt)).
Proof.
  intros Hen Hi n rt2. subst n rt2.
  destruct (start_enabled rt Hen) as (r1 & w1 & -> & _ & _). cbn [snd].
  destruct (start_enabled (Runtime (set_task (Some (length (tasks rt)))
                                      (set_running true (service rt)))
                             (tasks rt ++ [Task Created false]) w1 (ticks rt)) Hen)
    as (r2 & w2 & -> & _ & _). cbn [snd service tasks ticks].
  rewrite length_app, <- app_assoc. cbn [length app]. rewrite Nat.add_1_r.
  do 2 (split; [reflexivity|]).
  set (rt2 := Runtime _ _ _ _). set (n := length (tasks rt)).
  assert (_running (service rt2) = true) as Hr by done.
  assert ((interval_s (service rt2) < FLOAT_LIMIT)%Z) as Hi2 by done.
  assert (tasks rt2 !! n = Some (Task Created false)) as H0.
  { unfold rt2. cbn. by rewrite list_lookup_middle. }
  assert (tasks rt2 !! S n = Some (Task Created false)) as H1.
  { unfold rt2, n. cbn [tasks].
    change [Task Created false; Task Created false]
      with ([Task Created false] ++ [Task Created false]).
    rewrite app_assoc. apply list_lookup_middle. rewrite length_app. cbn. lia. }
  assert (n < length (tasks rt2)) as Hn by (by eapply lookup_lt_Some).
  set (ra := resume upper n rt2).
  assert (tasks ra !! n = Some (Task Sleeping false) /\ ticks ra = ticks rt
          /\ tasks ra !! S n = Some (Task Created false)
          /\ service ra = service rt2) as (Ha0 & Hat & Ha1 & Has).
  { unfold ra. rewrite (resume_other upper (S n) n) by lia.
    rewrite (resume_created upper n rt2 H0 Hr Hi2). cbn.
    by rewrite list_lookup_insert_eq. }
  assert (S n < length (tasks ra)) as HSa by (by eapply lookup_lt_Some).
  set (rb := resume upper (S n) ra).
  assert (tasks rb !! S n = Some (Task Sleeping false) /\ ticks rb = ticks rt
          /\ tasks rb !! n = Some (Task Sleeping false)
          /\ service rb = service rt2) as (Hb1 & Hbt & Hb0 & Hbs).
  { unfold rb. rewrite (resume_other upper n (S n)) by lia.
    rewrite (resume_created upper (S n) ra Ha1); [|by rewrite Has..]. cbn.
    by rewrite list_lookup_insert_eq. }
  cbn [run]. fold ra. fold rb. split; [done|].
  rewrite resume_ticks.
  - by rewrite resume_ticks, Hbt by (by rewrite ?Hbs).
  - by rewrite resume_other by lia.
  - by rewrite resume_service, Hbs.
Qed.

(** X14 on a service that has not been started. *)
Lemma second_start_second_loop_witness :
  tasks (snd (start (snd (start fresh_service))))
    = [Task Created false; Task Created false] /\
  _task (service (snd (start (snd (start fresh_service))))) = Some 1 /\
  ticks (run (fun s => s) [0; 1] (snd (start (snd (start fresh_service))))) = 0 /\
  ticks (run (fun s => s) [0; 1; 0; 1] (snd (start (snd (start fresh_service))))) = 2.
Proof.
  exact (second_start_second_loop (fun s => s) fresh_service eq_refl eq_refl).
Defined.

(** Property X15.  With an interval too large for a float the loop of an
    enabled service never sleeps and never ticks: [asyncio.sleep] raises
    OverflowError at every turn, the loop logs it and turns again.
    However often the task gets to run, it is turning in the loop, no
    tick has run, the files are what they were and the error has been
    logged. *)
Theorem huge_interval_never_ticks
    (upper : str -> str) (rt : runtime) (n : nat) :
  enabled (service rt) = true ->
  (FLOAT_LIMIT <= interval_s (service rt))%Z ->
  let h := length (tasks rt) in
  let rt' := run upper (replicate (S n) h) (snd (start rt)) in
  tasks rt' !! h = Some (Task Spinning false) /\
  ticks rt' = ticks rt /\
  disk (env rt') = disk (env rt) /\
  Logged ERROR (lit "Heartbeat error: int too large to convert to float")
    ∈ trace (env rt').
Proof.
  intros Hen Hi h rt'. subst h rt'.
  destruct (start_enabled rt Hen) as (r & w & -> & Hd & _). cbn [snd].
  set (rt1 := Runtime _ _ _ _). set (h := length (tasks rt)).
  assert (tasks rt1 !! h = Some (Task Created false)) as Hc.
  { unfold rt1, h. cbn. by rewrite list_lookup_middle. }
  cbn [replicate run].
  assert (forall r0 st,
    tasks r0 !! h = Some (Task st false) -> st = Created \/ st = Spinning ->
    service r0 = service rt1 ->
    let r1 := resume upper h r0 in
    tasks r1 !! h = Some (Task Spinning false) /\ service r1 = service rt1 /\
    ticks r1 = ticks r0 /\ disk (env r1) = disk (env r0) /\
    Logged ERROR (lit "Heartbeat error: int too large to convert to float")
      ∈ trace (env r1)) as Hturn.
  { intros r0 st H0 Hst Hs r1. subst r1.
    rewrite (resume_spins upper h r0 st H0 Hst) by (by rewrite Hs). cbn.
    split; [apply list_lookup_insert_eq; by eapply lookup_lt_Some|].
    do 3 (split; [done|]).
    rewrite elem_of_app, list_elem_of_singleton. by right. }
  destruct (Hturn rt1 Created Hc (or_introl eq_refl) eq_refl)
    as (Hs & Hsv & Ht & Hdisk & Hlog).
  revert Hs Hsv Ht Hdisk Hlog.
  generalize (resume upper h rt1). intros rs Hs Hsv Ht Hdisk Hlog.
  revert rs Hs Hsv Ht Hdisk Hlog. induction n as [|n IH]; intros rs Hs Hsv Ht Hdisk Hlog.
  { cbn. repeat split; try done. by rewrite Hdisk. }
  cbn [replicate run].
  destruct (Hturn rs Spinning Hs (or_intror eq_refl) Hsv)
    as (Hs' & Hsv' & Ht' & Hdisk' & Hlog').
  apply IH; try done; congruence.
Qed.

(** X15 on a service started with an interval of 2^1024 seconds. *)
Lemma huge_interval_never_ticks_witness :
  tasks (run (fun s => s) [0; 0] (snd (start huge_interval_service))) !! 0
    = Some (Task Spinning false) /\
  ticks (run (fun s => s) [0; 0] (snd (start huge_interval_service))) = 0.
Proof.
  destruct (huge_interval_never_ticks (fun s => s) huge_interval_service 1)
    as (H1 & H2 & _); [reflexivity|by vm_compute|].
  split; [exact H1|exact H2].
Defined.
